(** * ThreeCaptcha: recorder, replayer, normalizer, placement and adapters

    A shallow embedding of the [ThreeCaptcha] React component
    (three.js scene, Rapier physics world, fixed-rate recorder, replayer,
    CSV export and Gemini verification adapter) and the properties its
    specification states about it.

    Conventions of the embedding.
    - A JavaScript number is a rational [Q]; arithmetic is exact, except in
      the coordinate normalizer, whose every literal and operation goes
      through a rounding operator [rnd]: binary64 rounding is one such
      operator, off by a relative error of at most [unit_roundoff] (and by
      [underflow_unit] near zero); exact arithmetic is the instance [exact],
      and it is the one the recorder and the replayer are run with.
    - Strings are ASCII texts.
    - [useRef] cells and [useState] cells are fields of one record [State];
      a handler reads the state cell of the render it was created in, which
      for a user event is the committed value.
    - [performance.now()] is an argument of the handler that reads it.
    - What a handler does to the outside (stepping the world, imposing a
      frame, calling [onVerify], ...) is returned as a list of [Effect]s. *)

From Stdlib Require Import QArith Qminmax Qabs Qround Lqa Lia ZArith.
From Stdlib Require Import List Bool Arith String Ascii.
From Stdlib Require Import DecimalString.
From Stdlib Require DecimalN.
From Stdlib Require Reals Qreals.
Import ListNotations.

Open Scope Q_scope.

(** ** Numbers *)

(** Unit roundoff of binary64, 2^-53. *)
Definition unit_roundoff : Q := 1 # 9007199254740992.

(** Half the smallest positive binary64 number, 2^-1075. *)
Definition underflow_unit : Q := 1 # (2 ^ 1075).

(** Exact arithmetic: nothing is rounded. *)
Definition exact (q : Q) : Q := q.

Section Rounded.

Variable rnd : Q -> Q.

Definition lit (c : Q) : Q := rnd c.
Definition fadd (a b : Q) : Q := rnd (a + b).
Definition fsub (a b : Q) : Q := rnd (a - b).
Definition fmul (a b : Q) : Q := rnd (a * b).
Definition fdiv (a b : Q) : Q := rnd (a / b).

(** ** Coordinate normalizer *)

(** [normalizeCoordinates(x, y, z)]: three.js table [-3,3]x[-3,3] to the
    physical rectangle [0.2,0.40]x[-0.20,0.20]; the result is clamped. *)
Definition normalizeCoordinates (x y z : Q) : Q * Q :=
  let normalizedX :=
    fadd (lit 0.2)
         (fmul (fdiv (fadd x (lit 3)) (lit 6)) (fsub (lit 0.40) (lit 0.2))) in
  let normalizedY :=
    fadd (- lit 0.20)
         (fmul (fdiv (fadd z (lit 3)) (lit 6)) (fsub (lit 0.20) (- lit 0.20))) in
  (Qmax (lit 0.2) (Qmin (lit 0.40) normalizedX),
   Qmax (- lit 0.20) (Qmin (lit 0.20) normalizedY)).

(** [denormalizeCoordinates(normalizedX, normalizedY)]: the reverse map,
    no clamping; the second component is the three.js z. *)
Definition denormalizeCoordinates (normalizedX normalizedY : Q) : Q * Q :=
  let threeX :=
    fsub (fmul (fdiv (fsub normalizedX (lit 0.2))
                     (fsub (lit 0.40) (lit 0.2))) (lit 6)) (lit 3) in
  let threeZ :=
    fsub (fmul (fdiv (fsub normalizedY (- lit 0.20))
                     (fsub (lit 0.20) (- lit 0.20))) (lit 6)) (lit 3) in
  (threeX, threeZ).

(** The two axes of the normalizer have the same shape; these are the
    per-axis maps with the bounds [lo], [hi] of the physical range. *)
Definition normalizeAxis (lo hi v : Q) : Q :=
  Qmax lo (Qmin hi (fadd lo (fmul (fdiv (fadd v (lit 3)) (lit 6)) (fsub hi lo)))).

Definition denormalizeAxis (lo hi n : Q) : Q :=
  fsub (fmul (fdiv (fsub n lo) (fsub hi lo)) (lit 6)) (lit 3).

End Rounded.

(** ** Scene data *)

Record Vector3 := mkVector3 { v_x : Q; v_y : Q; v_z : Q }.
Record Quaternion := mkQuaternion { q_x : Q; q_y : Q; q_z : Q; q_w : Q }.

Definition ROBOT_ARM_Y : Q := 0.3.

(** [class RobotArm]: [position] is the very object [cylinder.position]
    (the constructor aliases them), so one field stands for both;
    [rigidBody] is the translation last given to the kinematic body with
    [setTranslation], [None] without a body. The engine keeps a copy of its
    own of what it is given, in single precision; the component never reads
    it back, and [rapierStep] is given the translation as written. *)
Record RobotArm := mkRobotArm {
  position : Vector3;
  rigidBody : option Vector3;
  radius : Q
}.

(** [new RobotArm(world)] *)
Definition newRobotArm : RobotArm :=
  {| position := mkVector3 0 0.4 0;
     rigidBody := Some (mkVector3 0 0.4 0);
     radius := 0.45 |}.

(** [RobotArm.setPosition(position)] *)
Definition setPosition (p : Vector3) (arm : RobotArm) : RobotArm :=
  {| position := p;
     rigidBody := match rigidBody arm with
                  | Some _ => Some (mkVector3 (v_x p) (v_y p) (v_z p))
                  | None => None
                  end;
     radius := radius arm |}.

(** An element of [objectsRef.current]: [{ mesh, body }]. The mesh fields
    are what three.js holds. [body_translation] and [body_rotation] are the
    pose of the body as the component last gave it ([setTranslation],
    [setRotation]) or as the last [world.step()] left it ([translation()],
    [rotation()]); the copy the engine makes of a pose it is given, in
    single precision and with a unit rotation, is not a field: it is made
    inside [rapierStep]. *)
Record SceneObject := mkSceneObject {
  mesh_position : Vector3;
  mesh_quaternion : Quaternion;
  body_translation : Vector3;
  body_rotation : Quaternion
}.

(** An element of [frame.objects]. *)
Record ObjectState := mkObjectState {
  os_position : Vector3;
  os_rotation : Quaternion
}.

(** An element of [recordingDataRef.current]. *)
Record Frame := mkFrame {
  timestamp : Q;
  robotArm : Vector3;
  objects : list ObjectState
}.

(** ** Component state *)

Record State := mkState {
  (* useState *)
  isRecording : bool;
  isReplaying : bool;
  hasRecording : bool;
  (* useRef *)
  isRecordingRef : bool;
  isReplayingRef : bool;
  recordingDataRef : list Frame;
  recordingStartTimeRef : Q;
  replayStartTimeRef : Q;
  recordingIntervalRef : option nat;
  frameCountRef : nat;
  robotArmRef : option RobotArm;
  objectsRef : list SceneObject;
  worldRef : bool;
  lastTimeRef : Q;
  (* closure variable of the effect *)
  isMounted : bool;
  (* the browser's interval timers: live handles, next handle *)
  intervals : list nat;
  nextInterval : nat
}.

(** The component before [initPhysics] has run. *)
Definition initialState : State :=
  {| isRecording := false; isReplaying := false; hasRecording := false;
     isRecordingRef := false; isReplayingRef := false;
     recordingDataRef := [];
     recordingStartTimeRef := 0; replayStartTimeRef := 0;
     recordingIntervalRef := None;
     frameCountRef := 0;
     robotArmRef := None;
     objectsRef := [];
     worldRef := false;
     lastTimeRef := 0;
     isMounted := true;
     intervals := [];
     nextInterval := 1 |}.

(** What a handler does to its environment. *)
Inductive Effect :=
| WorldStep                      (* worldRef.current.step() *)
| SyncMeshes                     (* meshes copied from their bodies *)
| ImposeFrame (f : Frame)        (* replayFrame wrote the poses of f *)
| StopReplay                     (* stopReplay() called by replayFrame *)
| RequestAnimationFrame
| Render.

(** ** Recorder *)

(** [recordFixedFrame()]. Of its guard [!robotArmRef.current ||
    !objectsRef.current] only the first part can hold: [objectsRef.current]
    is an array from the start. *)
Definition recordFixedFrame (st : State) : State :=
  match robotArmRef st with
  | None => st
  | Some arm =>
    let fixedTimestamp := inject_Z (Z.of_nat (frameCountRef st)) * (1000 / 10) in
    let robotPos := position arm in
    let normalizedRobotPos :=
      normalizeCoordinates exact (v_x robotPos) (v_y robotPos) (v_z robotPos) in
    let objectStates :=
      map (fun obj =>
             let normalizedObjPos :=
               normalizeCoordinates exact (v_x (mesh_position obj))
                 (v_y (mesh_position obj)) (v_z (mesh_position obj)) in
             {| os_position :=
                  mkVector3 (fst normalizedObjPos) (snd normalizedObjPos) 0.76;
                os_rotation :=
                  mkQuaternion (q_x (mesh_quaternion obj))
                               (q_z (mesh_quaternion obj))
                               (q_y (mesh_quaternion obj))
                               (q_w (mesh_quaternion obj)) |})
          (objectsRef st) in
    let frame :=
      {| timestamp := fixedTimestamp;
         robotArm := mkVector3 (fst normalizedRobotPos) (snd normalizedRobotPos) 0.76;
         objects := objectStates |} in
    {| isRecording := isRecording st; isReplaying := isReplaying st;
       hasRecording := hasRecording st;
       isRecordingRef := isRecordingRef st; isReplayingRef := isReplayingRef st;
       recordingDataRef := recordingDataRef st ++ [frame];
       recordingStartTimeRef := recordingStartTimeRef st;
       replayStartTimeRef := replayStartTimeRef st;
       recordingIntervalRef := recordingIntervalRef st;
       frameCountRef := S (frameCountRef st);
       robotArmRef := robotArmRef st;
       objectsRef := objectsRef st;
       worldRef := worldRef st;
       lastTimeRef := lastTimeRef st;
       isMounted := isMounted st;
       intervals := intervals st;
       nextInterval := nextInterval st |}
  end.

(** The callback given to [setInterval] by [startRecording]. *)
Definition intervalCallback (st : State) : State :=
  if isRecordingRef st then recordFixedFrame st else st.

(** [startRecording()], with [now] the value of [performance.now()]. *)
Definition startRecording (now : Q) (st : State) : State :=
  if isReplaying st then st
  else
    {| isRecording := true; isReplaying := isReplaying st;
       hasRecording := hasRecording st;
       isRecordingRef := true; isReplayingRef := isReplayingRef st;
       recordingDataRef := [];
       recordingStartTimeRef := now;
       replayStartTimeRef := replayStartTimeRef st;
       recordingIntervalRef := Some (nextInterval st);
       frameCountRef := 0;
       robotArmRef := robotArmRef st;
       objectsRef := objectsRef st;
       worldRef := worldRef st;
       lastTimeRef := lastTimeRef st;
       isMounted := isMounted st;
       intervals := nextInterval st :: intervals st;
       nextInterval := S (nextInterval st) |}.

(** [stopRecording()] *)
Definition stopRecording (st : State) : State :=
  let frameCount := List.length (recordingDataRef st) in
  {| isRecording := false; isReplaying := isReplaying st;
     hasRecording := if (0 <? frameCount)%nat then true else false;
     isRecordingRef := false; isReplayingRef := isReplayingRef st;
     recordingDataRef := recordingDataRef st;
     recordingStartTimeRef := recordingStartTimeRef st;
     replayStartTimeRef := replayStartTimeRef st;
     recordingIntervalRef := None;
     frameCountRef := frameCountRef st;
     robotArmRef := robotArmRef st;
     objectsRef := objectsRef st;
     worldRef := worldRef st;
     lastTimeRef := lastTimeRef st;
     isMounted := isMounted st;
     intervals := match recordingIntervalRef st with
                  | Some h => remove Nat.eq_dec h (intervals st)
                  | None => intervals st
                  end;
     nextInterval := nextInterval st |}.

(** ** Replayer *)

(** [startReplay()], with [now] the value of [performance.now()]. *)
Definition startReplay (now : Q) (st : State) : State :=
  if negb (hasRecording st) || isRecording st then st
  else
    {| isRecording := isRecording st; isReplaying := true;
       hasRecording := hasRecording st;
       isRecordingRef := isRecordingRef st; isReplayingRef := true;
       recordingDataRef := recordingDataRef st;
       recordingStartTimeRef := recordingStartTimeRef st;
       replayStartTimeRef := now;
       recordingIntervalRef := recordingIntervalRef st;
       frameCountRef := frameCountRef st;
       robotArmRef := robotArmRef st;
       objectsRef := objectsRef st;
       worldRef := worldRef st;
       lastTimeRef := lastTimeRef st;
       isMounted := isMounted st;
       intervals := intervals st;
       nextInterval := nextInterval st |}.

(** [stopReplay()] *)
Definition stopReplay (st : State) : State :=
  {| isRecording := isRecording st; isReplaying := false;
     hasRecording := hasRecording st;
     isRecordingRef := isRecordingRef st; isReplayingRef := false;
     recordingDataRef := recordingDataRef st;
     recordingStartTimeRef := recordingStartTimeRef st;
     replayStartTimeRef := replayStartTimeRef st;
     recordingIntervalRef := recordingIntervalRef st;
     frameCountRef := frameCountRef st;
     robotArmRef := robotArmRef st;
     objectsRef := objectsRef st;
     worldRef := worldRef st;
     lastTimeRef := lastTimeRef st;
     isMounted := isMounted st;
     intervals := intervals st;
     nextInterval := nextInterval st |}.

(** What [replayFrame] writes into one object from its recorded state:
    the position and the quaternion set on the mesh, and the translation
    and the rotation given to the body, which are the same numbers. *)
Definition imposeObject (objState : ObjectState) (obj : SceneObject) : SceneObject :=
  let objThreePos :=
    denormalizeCoordinates exact (v_x (os_position objState))
                                 (v_y (os_position objState)) in
  let actualHeight := 0.375 in
  {| mesh_position := mkVector3 (fst objThreePos) actualHeight (snd objThreePos);
     mesh_quaternion :=
       mkQuaternion (q_x (os_rotation objState)) (q_z (os_rotation objState))
                    (q_y (os_rotation objState)) (q_w (os_rotation objState));
     body_translation := mkVector3 (fst objThreePos) actualHeight (snd objThreePos);
     body_rotation :=
       mkQuaternion (q_x (os_rotation objState)) (q_z (os_rotation objState))
                    (q_y (os_rotation objState)) (q_w (os_rotation objState)) |}.

(** [frame.objects.forEach((objState, index) => { if (objectsRef.current[index]) ... })]:
    the object at [index] is written when it exists; objects beyond the
    frame's states are left as they are. *)
Fixpoint imposeObjects (states : list ObjectState) (objs : list SceneObject)
  : list SceneObject :=
  match states, objs with
  | objState :: states', obj :: objs' =>
      imposeObject objState obj :: imposeObjects states' objs'
  | _, _ => objs
  end.

(** The poses of [frame] written into the arm and the objects. *)
Definition imposeFrame (frame : Frame) (arm : RobotArm) (st : State) : State :=
  let robotArmThreePos :=
    denormalizeCoordinates exact (v_x (robotArm frame)) (v_y (robotArm frame)) in
  {| isRecording := isRecording st; isReplaying := isReplaying st;
     hasRecording := hasRecording st;
     isRecordingRef := isRecordingRef st; isReplayingRef := isReplayingRef st;
     recordingDataRef := recordingDataRef st;
     recordingStartTimeRef := recordingStartTimeRef st;
     replayStartTimeRef := replayStartTimeRef st;
     recordingIntervalRef := recordingIntervalRef st;
     frameCountRef := frameCountRef st;
     robotArmRef :=
       Some (setPosition (mkVector3 (fst robotArmThreePos) ROBOT_ARM_Y
                                    (snd robotArmThreePos)) arm);
     objectsRef := imposeObjects (objects frame) (objectsRef st);
     worldRef := worldRef st;
     lastTimeRef := lastTimeRef st;
     isMounted := isMounted st;
     intervals := intervals st;
     nextInterval := nextInterval st |}.

(** [recordingDataRef.current[recordingDataRef.current.length - 1]],
    [undefined] on the empty buffer. *)
Definition lastFrame (data : list Frame) : option Frame :=
  nth_error data (List.length data - 1).

(** [replayFrame()], with [now] the value of [performance.now()]. *)
Definition replayFrame (now : Q) (st : State) : State * list Effect :=
  if negb (isReplayingRef st) then (st, [])
  else
    match robotArmRef st with
    | None => (st, [])
    | Some arm =>
      let currentTime := now - replayStartTimeRef st in
      match find (fun f => Qle_bool currentTime (timestamp f)) (recordingDataRef st) with
      | Some frame => (imposeFrame frame arm st, [ImposeFrame frame])
      | None =>
        match lastFrame (recordingDataRef st) with
        | Some l =>
            if negb (Qle_bool currentTime (timestamp l))
            then (stopReplay st, [StopReplay])
            else (st, [])
        | None => (st, [])
        end
      end
    end.

(** ** Animation loop *)

Section Animation.

(** [world.step()] belongs to the physics engine: from the translation of
    the end-effector body and the poses of the object bodies it gives the
    new poses of the object bodies. It is given the poses as the component
    wrote them; what the engine makes of them when it stores them is part
    of the step. *)
Variable rapierStep :
  option Vector3 -> list (Vector3 * Quaternion) -> list (Vector3 * Quaternion).

Fixpoint setBodies (poses : list (Vector3 * Quaternion)) (objs : list SceneObject)
  : list SceneObject :=
  match poses, objs with
  | (t, r) :: poses', obj :: objs' =>
      {| mesh_position := mesh_position obj;
         mesh_quaternion := mesh_quaternion obj;
         body_translation := t;
         body_rotation := r |} :: setBodies poses' objs'
  | _, _ => objs
  end.

Definition withScene (lastTime : Q) (objs : list SceneObject) (st : State) : State :=
  {| isRecording := isRecording st; isReplaying := isReplaying st;
     hasRecording := hasRecording st;
     isRecordingRef := isRecordingRef st; isReplayingRef := isReplayingRef st;
     recordingDataRef := recordingDataRef st;
     recordingStartTimeRef := recordingStartTimeRef st;
     replayStartTimeRef := replayStartTimeRef st;
     recordingIntervalRef := recordingIntervalRef st;
     frameCountRef := frameCountRef st;
     robotArmRef := robotArmRef st;
     objectsRef := objs;
     worldRef := worldRef st;
     lastTimeRef := lastTime;
     isMounted := isMounted st;
     intervals := intervals st;
     nextInterval := nextInterval st |}.

(** [worldRef.current.step()] *)
Definition stepWorld (st : State) : State :=
  let armBody := match robotArmRef st with
                 | Some arm => rigidBody arm
                 | None => None
                 end in
  let bodies := map (fun obj => (body_translation obj, body_rotation obj))
                    (objectsRef st) in
  withScene (lastTimeRef st) (setBodies (rapierStep armBody bodies) (objectsRef st)) st.

(** [objects.forEach(obj => { obj.mesh.position.set(...); obj.mesh.quaternion.set(...) })] *)
Definition syncMeshes (st : State) : State :=
  withScene (lastTimeRef st)
    (map (fun obj =>
            {| mesh_position := body_translation obj;
               mesh_quaternion := body_rotation obj;
               body_translation := body_translation obj;
               body_rotation := body_rotation obj |})
         (objectsRef st)) st.

(** [animate()]: [currentTime] is the clock read by [animate] itself,
    [replayNow] the clock read by [replayFrame] when it is called. The
    [recordFrame()] of the live branch is the legacy function that returns
    at once. *)
Definition animate (currentTime replayNow : Q) (st : State) : State * list Effect :=
  if negb (isMounted st) then (st, [])
  else
    let st1 := withScene currentTime (objectsRef st) st in
    let '(st2, stepped) :=
      if worldRef st1 && negb (isReplayingRef st1)
      then (stepWorld st1, [WorldStep])
      else (st1, []) in
    let '(st3, posed) :=
      if isReplayingRef st2
      then replayFrame replayNow st2
      else (syncMeshes st2, [SyncMeshes]) in
    (st3, RequestAnimationFrame :: stepped ++ posed ++ [Render]).

End Animation.

(** ** Placement of the objects *)

(** An element of [occupiedPositions]. *)
Record Occupied := mkOccupied { occ_x : Q; occ_z : Q; occ_radius : Q }.

Definition Qlt_bool (a b : Q) : bool := negb (Qle_bool b a).

(** [Math.sqrt(Math.pow(x - px, 2) + Math.pow(z - pz, 2)) < bound], decided
    on the squares: for a sum of squares [s], [sqrt s < bound] holds exactly
    when [bound] is positive and [s < bound * bound]. *)
Definition distance_lt (x z px pz bound : Q) : bool :=
  Qlt_bool 0 bound && Qlt_bool ((x - px) ^ 2 + (z - pz) ^ 2) (bound * bound).

(** [isPositionValid(x, z, radius)], over the [occupiedPositions] it closes over. *)
Definition isPositionValid (occupiedPositions : list Occupied) (x z radius : Q) : bool :=
  let minDistance := radius * 4 in
  let robotArmX := 0 in
  let robotArmZ := 0 in
  let robotArmRadius := 0.45 in
  let minDistanceFromRobotArm := robotArmRadius + radius + 0.5 in
  if distance_lt x z robotArmX robotArmZ minDistanceFromRobotArm then false
  else
    forallb (fun pos =>
               negb (distance_lt x z (occ_x pos) (occ_z pos)
                                 (minDistance + occ_radius pos * 2)))
            occupiedPositions.

Definition numObjects : nat := 3.
Definition maxAttempts : nat := 100.
Definition size : Q := 0.75.
Definition objectRadius : Q := size * 1.2.

(** The [do { ... } while (!isPositionValid(x, z, objectRadius) && attempts < maxAttempts)]
    loop. [random k] is the value of the [k]-th call of [Math.random()];
    the result is the last candidate, the number of attempts and the number
    of calls made so far. [None] only when the fuel runs out. *)
Fixpoint sampleLoop (fuel : nat) (random : nat -> Q) (occupiedPositions : list Occupied)
    (calls attempts : nat) : option (Q * Q * nat * nat) :=
  match fuel with
  | O => None
  | S fuel' =>
    let x := (random calls - 0.5) * 3.5 in
    let z := (random (S calls) - 0.5) * 3.5 in
    let attempts := S attempts in
    if negb (isPositionValid occupiedPositions x z objectRadius)
       && (attempts <? maxAttempts)%nat
    then sampleLoop fuel' random occupiedPositions (S (S calls)) attempts
    else Some (x, z, attempts, S (S calls))
  end.

(** The grid position taken when [attempts >= maxAttempts]; [gridSize] is
    [Math.ceil(Math.sqrt(numObjects))], [gridIndex] the number of objects
    placed so far. *)
Definition gridFallback (occupiedPositions : list Occupied) : Q * Q :=
  let gridSize := Nat.sqrt_up numObjects in
  let gridIndex := List.length occupiedPositions in
  let gridX := inject_Z (Z.of_nat (gridIndex mod gridSize))
               - inject_Z (Z.of_nat gridSize) / 2 in
  let gridZ := inject_Z (Z.of_nat (gridIndex / gridSize))
               - inject_Z (Z.of_nat gridSize) / 2 in
  (gridX * 1.2, gridZ * 1.2).

(** One turn of the [for (let i = 0; i < numObjects; i++)] loop of
    [initPhysics]: the position of the new object. *)
Definition placeOne (random : nat -> Q) (occupiedPositions : list Occupied)
    (calls : nat) : option (Q * Q * nat) :=
  match sampleLoop maxAttempts random occupiedPositions calls 0 with
  | None => None
  | Some (x, z, attempts, calls') =>
    if (maxAttempts <=? attempts)%nat
    then Some (fst (gridFallback occupiedPositions),
               snd (gridFallback occupiedPositions), calls')
    else Some (x, z, calls')
  end.

(** The whole loop: the [occupiedPositions] after [n] more objects. *)
Fixpoint placeObjects (n : nat) (random : nat -> Q) (occupiedPositions : list Occupied)
    (calls : nat) : option (list Occupied) :=
  match n with
  | O => Some occupiedPositions
  | S n' =>
    match placeOne random occupiedPositions calls with
    | None => None
    | Some (x, z, calls') =>
      placeObjects n' random
        (occupiedPositions ++ [mkOccupied x z objectRadius]) calls'
    end
  end.

(** The object created at a placed position: mesh and body at height 2.5. *)
Definition objectAt (pos : Occupied) : SceneObject :=
  let y := 2.5 in
  {| mesh_position := mkVector3 (occ_x pos) y (occ_z pos);
     mesh_quaternion := mkQuaternion 0 0 0 1;
     body_translation := mkVector3 (occ_x pos) y (occ_z pos);
     body_rotation := mkQuaternion 0 0 0 1 |}.

(** [initPhysics()], from the awaited [RAPIER.init()] on: world, arm and
    objects are created and stored in their refs. *)
Definition initPhysics (random : nat -> Q) (st : State) : State :=
  if negb (isMounted st) then st
  else
    match placeObjects numObjects random [] 0 with
    | None => st
    | Some occupiedPositions =>
      {| isRecording := isRecording st; isReplaying := isReplaying st;
         hasRecording := hasRecording st;
         isRecordingRef := isRecordingRef st; isReplayingRef := isReplayingRef st;
         recordingDataRef := recordingDataRef st;
         recordingStartTimeRef := recordingStartTimeRef st;
         replayStartTimeRef := replayStartTimeRef st;
         recordingIntervalRef := recordingIntervalRef st;
         frameCountRef := frameCountRef st;
         robotArmRef := Some newRobotArm;
         objectsRef := map objectAt occupiedPositions;
         worldRef := true;
         lastTimeRef := lastTimeRef st;
         isMounted := isMounted st;
         intervals := intervals st;
         nextInterval := nextInterval st |}
    end.

(** [onPointerDown] / [onPointerMove] with a ray that meets the ground plane
    at [(ix, 0, iz)]: the arm is moved there. The listeners exist once
    [initPhysics] has created the arm. *)
Definition onPointer (ix iz : Q) (st : State) : State :=
  match robotArmRef st with
  | None => st
  | Some arm =>
    {| isRecording := isRecording st; isReplaying := isReplaying st;
       hasRecording := hasRecording st;
       isRecordingRef := isRecordingRef st; isReplayingRef := isReplayingRef st;
       recordingDataRef := recordingDataRef st;
       recordingStartTimeRef := recordingStartTimeRef st;
       replayStartTimeRef := replayStartTimeRef st;
       recordingIntervalRef := recordingIntervalRef st;
       frameCountRef := frameCountRef st;
       robotArmRef := Some (setPosition (mkVector3 ix ROBOT_ARM_Y iz) arm);
       objectsRef := objectsRef st;
       worldRef := worldRef st;
       lastTimeRef := lastTimeRef st;
       isMounted := isMounted st;
       intervals := intervals st;
       nextInterval := nextInterval st |}
  end.

(** ** The component as a transition system *)

(** What can happen to the component: the buttons, the interval timer, the
    animation frame, the pointer. Every event may come at any time and in
    any state; the clock values are whatever the clock gives. *)
Inductive Event :=
| EvInitPhysics (random : nat -> Q)
| EvStartRecording (now : Q)
| EvStopRecording
| EvStartReplay (now : Q)
| EvStopReplay
| EvInterval (handle : nat)
| EvAnimate (currentTime replayNow : Q)
| EvPointer (ix iz : Q).

Section Run.

Variable rapierStep :
  option Vector3 -> list (Vector3 * Quaternion) -> list (Vector3 * Quaternion).

Definition handleEvent (st : State) (e : Event) : State :=
  match e with
  | EvInitPhysics random => initPhysics random st
  | EvStartRecording now => startRecording now st
  | EvStopRecording => stopRecording st
  | EvStartReplay now => startReplay now st
  | EvStopReplay => stopReplay st
  | EvInterval handle =>
      if existsb (Nat.eqb handle) (intervals st) then intervalCallback st else st
  | EvAnimate currentTime replayNow => fst (animate rapierStep currentTime replayNow st)
  | EvPointer ix iz => onPointer ix iz st
  end.

Definition run (events : list Event) (st : State) : State :=
  fold_left handleEvent events st.

(** The effects of every event of a run, in order. *)
Fixpoint effectsOf (events : list Event) (st : State) : list Effect :=
  match events with
  | [] => []
  | e :: events' =>
    match e with
    | EvAnimate currentTime replayNow =>
        snd (animate rapierStep currentTime replayNow st)
    | _ => []
    end ++ effectsOf events' (handleEvent st e)
  end.

Definition reachable (st : State) : Prop :=
  exists events, st = run events initialState.

End Run.

(** ** Strings *)

Open Scope string_scope.

(** The character [\n]. *)
Definition newline : string := String (ascii_of_nat 10) "".

(** [String(n)] for a non-negative integer: its decimal digits. *)
Definition digitsOf (n : N) : string := NilZero.string_of_uint (N.to_uint n).

(** ["0".repeat(n)] *)
Fixpoint zeros (n : nat) : string :=
  match n with
  | O => ""
  | S n' => String "0" (zeros n')
  end.

(** [s.includes(t)] *)
Fixpoint includes (s t : string) : bool :=
  prefix t s ||
  match s with
  | "" => false
  | String _ s' => includes s' t
  end.

(** [s.toUpperCase()], on ASCII text. *)
Definition upperChar (c : ascii) : ascii :=
  let n := nat_of_ascii c in
  if ((97 <=? n) && (n <=? 122))%nat then ascii_of_nat (n - 32) else c.

Fixpoint toUpperCase (s : string) : string :=
  match s with
  | "" => ""
  | String c s' => String (upperChar c) (toUpperCase s')
  end.

(** White space of [String.prototype.trim], on ASCII text. *)
Definition isWhiteSpace (c : ascii) : bool :=
  let n := nat_of_ascii c in
  ((n =? 32) || ((9 <=? n) && (n <=? 13)))%nat.

(** [!s.trim()]: nothing is left of [s] once its white space is trimmed. *)
Fixpoint trimIsEmpty (s : string) : bool :=
  match s with
  | "" => true
  | String c s' => isWhiteSpace c && trimIsEmpty s'
  end.

(** ** CSV export *)

Section CsvExport.

(** [Number::toString], which [toFixed] returns for values from 10^21 on
    (exponent notation); it belongs to the engine. *)
Variable numberToString : Q -> string.

(** [x.toFixed(fractionDigits)] (ECMAScript, Number.prototype.toFixed):
    [n] is the integer for which [n / 10^f - x] is closest to zero, the
    larger one of two; its digits are padded with zeros to [f + 1] and a
    point is put before the last [f]. *)
Definition toFixed (fractionDigits : nat) (x : Q) : string :=
  let f := fractionDigits in
  let s := if Qlt_bool x 0 then "-" else "" in
  let x := if Qlt_bool x 0 then - x else x in
  if Qle_bool (inject_Z (10 ^ 21)) x then s ++ numberToString x
  else
    let n := Z.to_N (Qfloor (x * inject_Z (10 ^ Z.of_nat f) + (1 # 2))) in
    let m := digitsOf n in
    if (f =? 0)%nat then s ++ m
    else
      let m := if (length m <=? f)%nat then zeros (f + 1 - length m) ++ m else m in
      let k := length m in
      s ++ substring 0 (k - f) m ++ "." ++ substring (k - f) f m.

(** The header of [saveRecordingAsCSV], built by its [for] loop. *)
Definition csvHeader (objectCount : nat) : string :=
  fold_left
    (fun csvHeader i =>
       let n := digitsOf (N.of_nat (i + 1)) in
       (csvHeader
          ++ (",Object" ++ n ++ "_Pos_X,Object" ++ n ++ "_Pos_Y,Object" ++ n ++ "_Pos_Z"))
         ++ (",Object" ++ n ++ "_Rot_X,Object" ++ n ++ "_Rot_Y,Object" ++ n
               ++ "_Rot_Z,Object" ++ n ++ "_Rot_W"))
    (seq 0 objectCount)
    "Timestamp,RobotArm_X,RobotArm_Y,RobotArm_Z".

(** One row of [csvRows]. *)
Definition csvRow (frame : Frame) : string :=
  fold_left
    (fun row obj =>
       (row
          ++ ("," ++ toFixed 6 (v_x (os_position obj))
               ++ "," ++ toFixed 6 (v_y (os_position obj))
               ++ "," ++ toFixed 6 (v_z (os_position obj))))
         ++ ("," ++ toFixed 6 (q_x (os_rotation obj))
               ++ "," ++ toFixed 6 (q_y (os_rotation obj))
               ++ "," ++ toFixed 6 (q_z (os_rotation obj))
               ++ "," ++ toFixed 6 (q_w (os_rotation obj))))
    (objects frame)
    (toFixed 3 (timestamp frame)
       ++ "," ++ toFixed 6 (v_x (robotArm frame))
       ++ "," ++ toFixed 6 (v_y (robotArm frame))
       ++ "," ++ toFixed 6 (v_z (robotArm frame))).

(** [saveRecordingAsCSV()]: the [csvContent] put into the downloaded
    file, [None] when the function alerts and returns. *)
Definition saveRecordingAsCSV (st : State) : option string :=
  if negb (hasRecording st) || (List.length (recordingDataRef st) =? 0)%nat
  then None
  else
    match recordingDataRef st with
    | [] => None
    | firstFrame :: _ =>
      let objectCount := List.length (objects firstFrame) in
      let csvRows := map csvRow (recordingDataRef st) in
      Some (concat newline (csvHeader objectCount :: csvRows))
    end.

End CsvExport.

(** ** Verification adapter *)

(** The value found at [data.candidates?.[0]?.content?.parts?.[0]?.text]. *)
Inductive CandidateText :=
| TextAbsent                (* undefined, null or another falsy value *)
| TextString (s : string)   (* a string *)
| TextOther.                (* a truthy value that is not a string *)

(** The outcome of [fetch] and [response.json()]. *)
Inductive Fetched :=
| FetchRejected                                  (* network failure *)
| JsonRejected                                   (* the body is not JSON *)
| JsonNull (ok : bool)                           (* the body is null *)
| JsonData (ok : bool) (text : CandidateText).   (* an object *)

Inductive VerifyEffect :=
| Alert
| SetIsVerifying (b : bool)
| SetVerificationResult (r : option bool)   (* 'success', 'failed', null *)
| OnVerify (isVerified : bool).

(** The [try] block after [fetch]: [None] when an exception is thrown. *)
Definition interpretResponse (response : Fetched) : option bool :=
  match response with
  | FetchRejected => None
  | JsonRejected => None
  | JsonNull _ => None
  | JsonData false _ => None
  | JsonData true text =>
    match match text with
          | TextAbsent => Some ""
          | TextString s => Some s
          | TextOther => None
          end with
    | None => None
    | Some result =>
      Some (includes (toUpperCase result) "VERIFIED"
            && negb (includes (toUpperCase result) "NOT_VERIFIED"))
    end
  end.

(** [verifyWithGemini()]: [rendererReady] tells whether [rendererRef.current]
    is set, [response] what the network gives. *)
Definition verifyWithGemini (apiKey : string) (rendererReady : bool)
    (response : Fetched) : list VerifyEffect :=
  if trimIsEmpty apiKey then [Alert]
  else if negb rendererReady then [OnVerify false]
  else
    [SetIsVerifying true; SetVerificationResult None]
    ++ match interpretResponse response with
       | Some true => [SetVerificationResult (Some true); OnVerify true]
       | Some false => [SetVerificationResult (Some false); OnVerify false]
       | None => [Alert; SetVerificationResult (Some false); OnVerify false]
       end
    ++ [SetIsVerifying false].

Close Scope string_scope.

(** ** Notions used by the statements *)

(** The timestamp [recordFixedFrame] gives to the frame of index [i]. *)
Definition stamp (i : nat) : Q := inject_Z (Z.of_nat i) * (1000 / 10).

(** What holds of every state the component can be in. *)
Record Invariant (st : State) : Prop := {
  inv_replaying : isReplaying st = isReplayingRef st;
  inv_recording : isRecording st = isRecordingRef st;
  inv_count : frameCountRef st = List.length (recordingDataRef st);
  inv_stamps :
    map timestamp (recordingDataRef st)
    = map stamp (seq 0 (List.length (recordingDataRef st)));
  inv_has :
    hasRecording st = true -> isRecording st = false -> recordingDataRef st <> [];
  inv_playing :
    isReplaying st = true -> recordingDataRef st <> [] /\ isRecording st = false;
  inv_arm : recordingDataRef st <> [] -> robotArmRef st <> None;
  inv_mounted : isMounted st = true
}.

Definition isStopReplay (e : Effect) : bool :=
  match e with StopReplay => true | _ => false end.

Definition isImposeFrame (e : Effect) : bool :=
  match e with ImposeFrame _ => true | _ => false end.

Definition isStartReplay (e : Event) : bool :=
  match e with EvStartReplay _ => true | _ => false end.

(** ** Sample states and runs *)

(** A physics engine that leaves every body where it is. *)
Definition restingStep (armBody : option Vector3) (bodies : list (Vector3 * Quaternion))
  : list (Vector3 * Quaternion) := bodies.

(** A run of the component: scene set up, recording started, the arm
    dragged, three timer ticks with an animation frame in between. *)
Definition sampleRecording : list Event :=
  [EvInitPhysics (fun _ => 0.9); EvStartRecording 5; EvPointer 1 2;
   EvInterval 1; EvAnimate 130 131; EvInterval 1; EvInterval 1].

(** The sample recording, stopped and then replayed from time 1000 on. *)
Definition sampleReplay : list Event :=
  sampleRecording ++ [EvStopRecording; EvStartReplay 1000].

(** A frame without objects, the arm at the middle of the table. *)
Definition frameAt (t : Q) : Frame :=
  {| timestamp := t; robotArm := mkVector3 0.3 0 0.76; objects := [] |}.

(** A replaying state with frames at 0, 100 and 200, replay started at 1000. *)
Definition replayingState : State :=
  {| isRecording := false; isReplaying := true; hasRecording := true;
     isRecordingRef := false; isReplayingRef := true;
     recordingDataRef := [frameAt 0; frameAt 100; frameAt 200];
     recordingStartTimeRef := 0; replayStartTimeRef := 1000;
     recordingIntervalRef := None;
     frameCountRef := 3;
     robotArmRef := Some newRobotArm;
     objectsRef := [];
     worldRef := true;
     lastTimeRef := 0;
     isMounted := true;
     intervals := [];
     nextInterval := 2 |}.

(** A scene with one tilted object, the arm away from the centre. *)
Definition tiltedState : State :=
  {| isRecording := true; isReplaying := false; hasRecording := false;
     isRecordingRef := true; isReplayingRef := false;
     recordingDataRef := [];
     recordingStartTimeRef := 0; replayStartTimeRef := 0;
     recordingIntervalRef := Some 1%nat;
     frameCountRef := 0;
     robotArmRef := Some newRobotArm;
     objectsRef :=
       [{| mesh_position := mkVector3 1 0.375 (-2);
           mesh_quaternion := mkQuaternion 0.1 0.2 0.3 0.9;
           body_translation := mkVector3 1 0.375 (-2);
           body_rotation := mkQuaternion 0.1 0.2 0.3 0.9 |}];
     worldRef := true;
     lastTimeRef := 0;
     isMounted := true;
     intervals := [1%nat];
     nextInterval := 2 |}.

(** A physics engine that throws every body to one place, upright. *)
Definition tumblingStep (armBody : option Vector3)
    (bodies : list (Vector3 * Quaternion)) : list (Vector3 * Quaternion) :=
  map (fun _ => (mkVector3 2 0.375 2, mkQuaternion 0 0 0 1)) bodies.

(** The tilted scene recorded by one timer tick, then tumbled by a physics
    step, the recording stopped and its replay started at time 1000. *)
Definition tumbledReplay : State :=
  run tumblingStep
      [EvInterval 1; EvAnimate 16 16; EvStopRecording; EvStartReplay 1000]
      tiltedState.

(** ** Notions of the orientation and placement statements *)

(** The quaternion with its y and z channels exchanged. *)
Definition swapYZ (q : Quaternion) : Quaternion :=
  mkQuaternion (q_x q) (q_z q) (q_y q) (q_w q).


(** The centres [(x, z)] and [(px, pz)] are at least [r1 + r2] apart: the
    clearance disks of radii [r1] and [r2] around them do not overlap. *)
Definition clearanceKept (x z px pz r1 r2 : Q) : bool :=
  negb (distance_lt x z px pz (r1 + r2)).

(** Every placed object keeps clear of the end-effector (at the origin,
    radius 0.45) and of every object placed after it. *)
Fixpoint placementClear (placed : list Occupied) : bool :=
  match placed with
  | [] => true
  | pos :: rest =>
    clearanceKept (occ_x pos) (occ_z pos) 0 0 (occ_radius pos) 0.45
    && forallb (fun other =>
                  clearanceKept (occ_x pos) (occ_z pos) (occ_x other) (occ_z other)
                                (occ_radius pos) (occ_radius other))
               rest
    && placementClear rest
  end.

(** A candidate of the sampling loop lies in the square of side 3.5. *)
Definition inSquare (x z : Q) : Prop :=
  -(1.75) <= x <= 1.75 /\ -(1.75) <= z <= 1.75.

(** What one rounding adds, in absolute terms, to a result of magnitude at
    most 10000. *)
Definition roundingError : Q := 1 # 500000000000.

(** ** Notions of the adapter statements *)

Open Scope string_scope.

(** [t] occurs in [s]. *)
Definition occurs (t s : string) : Prop :=
  exists before after, s = before ++ t ++ after.

(** The responses on which the [try] block throws: a rejected [fetch], a
    body that is not JSON, a [null] body, a status that is not ok, a text
    that is not a string. *)
Definition throws (response : Fetched) : bool :=
  match response with
  | JsonData true TextAbsent => false
  | JsonData true (TextString _) => false
  | _ => true
  end.

Definition isOnVerify (e : VerifyEffect) : bool :=
  match e with OnVerify _ => true | _ => false end.

Definition isDigit (c : ascii) : bool :=
  let n := nat_of_ascii c in ((48 <=? n) && (n <=? 57))%nat.

(** Every character of [s] satisfies [p]. *)
Fixpoint allChars (p : ascii -> bool) (s : string) : bool :=
  match s with
  | "" => true
  | String c s' => p c && allChars p s'
  end.

(** A number printed with exactly [f] decimals: an optional sign, at least
    one digit, a point, [f] digits. *)
Definition fixedDecimal (f : nat) (s : string) : Prop :=
  exists sign whole fraction,
    s = sign ++ whole ++ "." ++ fraction
    /\ (sign = "" \/ sign = "-")
    /\ whole <> ""
    /\ allChars isDigit whole = true
    /\ allChars isDigit fraction = true
    /\ length fraction = f.

(** Below 10^21 in magnitude, where [toFixed] prints decimals. *)
Definition printable (x : Q) : bool := Qlt_bool (Qabs x) (inject_Z (10 ^ 21)).

Definition printableVector (v : Vector3) : bool :=
  printable (v_x v) && printable (v_y v) && printable (v_z v).

Definition printableFrame (frame : Frame) : bool :=
  printable (timestamp frame)
  && printableVector (robotArm frame)
  && forallb (fun obj =>
                printableVector (os_position obj)
                && printable (q_x (os_rotation obj))
                && printable (q_y (os_rotation obj))
                && printable (q_z (os_rotation obj))
                && printable (q_w (os_rotation obj)))
             (objects frame).

(** The column names of object number [i]. *)
Definition objectColumns (i : nat) : list string :=
  let n := digitsOf (N.of_nat i) in
  ["Object" ++ n ++ "_Pos_X"; "Object" ++ n ++ "_Pos_Y"; "Object" ++ n ++ "_Pos_Z";
   "Object" ++ n ++ "_Rot_X"; "Object" ++ n ++ "_Rot_Y"; "Object" ++ n ++ "_Rot_Z";
   "Object" ++ n ++ "_Rot_W"].

(** The column names of the export for [objectCount] objects. *)
Definition headerColumns (objectCount : nat) : list string :=
  ["Timestamp"; "RobotArm_X"; "RobotArm_Y"; "RobotArm_Z"]
  ++ flat_map objectColumns (seq 1 objectCount).

(** The header the specification words: the arm's columns are named after
    the end-effector. *)
Definition specifiedHeaderColumns (objectCount : nat) : list string :=
  ["Timestamp"; "EndEffector_X"; "EndEffector_Y"; "EndEffector_Z"]
  ++ flat_map objectColumns (seq 1 objectCount).

(** The lines of a text: its pieces between line feeds. *)
Fixpoint lines (s : string) : list string :=
  match s with
  | "" => [""]
  | String c s' =>
    if Ascii.eqb c (ascii_of_nat 10) then "" :: lines s'
    else match lines s' with
         | [] => [String c ""]
         | line :: rest => String c line :: rest
         end
  end.

Definition notLineFeed (c : ascii) : bool := negb (Ascii.eqb c (ascii_of_nat 10)).

Section CsvFields.

Variable numberToString : Q -> string.

(** The printed fields of one recorded object, in column order. *)
Definition objectFields (obj : ObjectState) : list string :=
  [toFixed numberToString 6 (v_x (os_position obj));
   toFixed numberToString 6 (v_y (os_position obj));
   toFixed numberToString 6 (v_z (os_position obj));
   toFixed numberToString 6 (q_x (os_rotation obj));
   toFixed numberToString 6 (q_y (os_rotation obj));
   toFixed numberToString 6 (q_z (os_rotation obj));
   toFixed numberToString 6 (q_w (os_rotation obj))].

(** The printed fields of one frame, in column order. *)
Definition rowFields (frame : Frame) : list string :=
  [toFixed numberToString 3 (timestamp frame);
   toFixed numberToString 6 (v_x (robotArm frame));
   toFixed numberToString 6 (v_y (robotArm frame));
   toFixed numberToString 6 (v_z (robotArm frame))]
  ++ flat_map objectFields (objects frame).

End CsvFields.

Close Scope string_scope.

(** ** Pointer *)

(** [getPointerPosition(event)]: the pointer in normalized device
    coordinates; [left], [top], [width] and [height] are those of
    [renderer.domElement.getBoundingClientRect()]. *)
Definition getPointerPosition (clientX clientY left top width height : Q) : Q * Q :=
  (((clientX - left) / width) * 2 - 1,
   - ((clientY - top) / height) * 2 + 1).

(** The pointer listeners over the closure variable [isDragging];
    [intersection] is the point where the ray of the pointer meets the
    ground plane, when it does. *)
Definition onPointerDown (intersection : option (Q * Q)) (isDragging : bool)
    (st : State) : bool * State :=
  match intersection with
  | Some (ix, iz) => (true, onPointer ix iz st)
  | None => (isDragging, st)
  end.

Definition onPointerMove (intersection : option (Q * Q)) (isDragging : bool)
    (st : State) : bool * State :=
  if negb isDragging then (isDragging, st)
  else
    match intersection with
    | Some (ix, iz) => (isDragging, onPointer ix iz st)
    | None => (isDragging, st)
    end.

Definition onPointerUp (isDragging : bool) (st : State) : bool * State :=
  (false, st).

(** [mousedown]/[touchstart], [mousemove]/[touchmove], [mouseup]/[touchend]. *)
Inductive PointerEvent :=
| PointerDown (intersection : option (Q * Q))
| PointerMove (intersection : option (Q * Q))
| PointerUp.

Definition handlePointer (drag : bool * State) (e : PointerEvent) : bool * State :=
  match e with
  | PointerDown intersection => onPointerDown intersection (fst drag) (snd drag)
  | PointerMove intersection => onPointerMove intersection (fst drag) (snd drag)
  | PointerUp => onPointerUp (fst drag) (snd drag)
  end.

Definition isPointerMove (e : PointerEvent) : bool :=
  match e with PointerMove _ => true | _ => false end.

(** ** Controls *)

(** The [disabled] attribute of the "Save CSV" button. *)
Definition saveCsvDisabled (isVerifying : bool) (st : State) : bool :=
  negb (hasRecording st) || isRecording st || isReplaying st || isVerifying.

(** The [disabled] attribute of the "Verify with Gemini" button. *)
Definition verifyDisabled (isVerifying : bool) (apiKey task : string) (st : State)
  : bool :=
  isRecording st || isReplaying st || isVerifying
  || trimIsEmpty apiKey || trimIsEmpty task.

(** The button behind an event is rendered and not disabled: "Start
    Recording" is rendered when [!isRecording] and disabled when
    [isReplaying], "Stop Recording" is rendered when [isRecording], "Replay"
    is rendered when [!isReplaying] and disabled when
    [!hasRecording || isRecording], "Stop Replay" is rendered when
    [isReplaying]. Timers, animation frames and the pointer need no button. *)
Definition offered (st : State) (e : Event) : bool :=
  match e with
  | EvStartRecording _ => negb (isRecording st) && negb (isReplaying st)
  | EvStopRecording => isRecording st
  | EvStartReplay _ =>
      negb (isReplaying st) && negb (negb (hasRecording st) || isRecording st)
  | EvStopReplay => isReplaying st
  | _ => true
  end.

Section Controls.

Variable rapierStep :
  option Vector3 -> list (Vector3 * Quaternion) -> list (Vector3 * Quaternion).

(** The states reached when the handlers of the buttons are called by the
    buttons only. *)
Inductive operated : State -> Prop :=
| operated_initial : operated initialState
| operated_step (st : State) (e : Event) :
    operated st -> offered st e = true -> operated (handleEvent rapierStep st e).

End Controls.

(** ** Notions of the further statements *)

(** A coordinate brought back to the table [-3, 3]. *)
Definition clampToTable (v : Q) : Q := Qmax (-3) (Qmin 3 v).

(** A recorded position: inside the physical rectangle, at the fixed height. *)
Definition inRectangle (v : Vector3) : Prop :=
  0.2 <= v_x v <= 0.40 /\ -(0.20) <= v_y v <= 0.20 /\ v_z v = 0.76.

Definition isStartRecording (e : Event) : bool :=
  match e with EvStartRecording _ => true | _ => false end.

Definition isStopRecording (e : Event) : bool :=
  match e with EvStopRecording => true | _ => false end.

(** The ticks of live interval timers among the events. *)
Definition liveTicks (live : list nat) (events : list Event) : nat :=
  List.length
    (filter (fun e => match e with
                      | EvInterval handle => existsb (Nat.eqb handle) live
                      | _ => false
                      end) events).

(** The number a text of decimal digits reads as. *)
Definition digitValue (c : ascii) : N := N.of_nat (nat_of_ascii c - 48).

Fixpoint readDigits (acc : N) (s : string) : N :=
  match s with
  | EmptyString => acc
  | String c s' => readDigits (acc * 10 + digitValue c) s'
  end.

(** The value of the decimal with the digits [whole] before the point and
    [fraction] after it. *)
Definition decimalValue (whole fraction : string) : Q :=
  inject_Z (Z.of_N (readDigits 0 (whole ++ fraction)))
  / inject_Z (10 ^ Z.of_nat (String.length fraction)).

(** The fields of a line: its pieces between commas. *)
Fixpoint fieldsOf (s : string) : list string :=
  match s with
  | EmptyString => [EmptyString]
  | String c s' =>
    if Ascii.eqb c (ascii_of_nat 44) then EmptyString :: fieldsOf s'
    else match fieldsOf s' with
         | [] => [String c EmptyString]
         | field :: rest => String c field :: rest
         end
  end.

Definition notComma (c : ascii) : bool := negb (Ascii.eqb c (ascii_of_nat 44)).

(** * Properties *)

(** ** Reachable states *)

Section Reachable.

Variable rapierStep :
  option Vector3 -> list (Vector3 * Quaternion) -> list (Vector3 * Quaternion).

Lemma run_app (es1 es2 : list Event) (st : State) :
  run rapierStep (es1 ++ es2) st = run rapierStep es2 (run rapierStep es1 st).
Proof. unfold run. apply fold_left_app. Qed.

(** Induction over the events that led to a state. *)
Lemma reachable_ind' (P : State -> Prop) :
  P initialState ->
  (forall st e, reachable rapierStep st -> P st -> P (handleEvent rapierStep st e)) ->
  forall st, reachable rapierStep st -> P st.
Proof.
  intros Hinit Hstep st [events ->].
  induction events as [|e events IH] using rev_ind.
  - exact Hinit.
  - rewrite run_app. cbn. apply Hstep; [eexists; reflexivity | exact IH].
Qed.

Lemma reachable_run (events : list Event) (st : State) :
  reachable rapierStep st -> reachable rapierStep (run rapierStep events st).
Proof.
  intros [before ->]. exists (before ++ events). now rewrite run_app.
Qed.

Lemma reachable_step (st : State) (e : Event) :
  reachable rapierStep st -> reachable rapierStep (handleEvent rapierStep st e).
Proof.
  intros [events ->]. exists (events ++ [e]). rewrite run_app. reflexivity.
Qed.

(** What [replayFrame] can do to a state. *)
Lemma replayFrame_cases (now : Q) (st : State) :
  replayFrame now st = (st, [])
  \/ (exists frame arm,
        isReplayingRef st = true /\ robotArmRef st = Some arm
        /\ find (fun f => Qle_bool (now - replayStartTimeRef st) (timestamp f))
                (recordingDataRef st) = Some frame
        /\ replayFrame now st = (imposeFrame frame arm st, [ImposeFrame frame]))
  \/ (isReplayingRef st = true
      /\ replayFrame now st = (stopReplay st, [StopReplay])).
Proof.
  unfold replayFrame.
  destruct (isReplayingRef st) eqn:Hr; cbn; [|now left].
  destruct (robotArmRef st) as [arm|] eqn:Ha; [|now left].
  destruct (find _ (recordingDataRef st)) as [frame|] eqn:Hf.
  - right; left. exists frame, arm. auto.
  - destruct (lastFrame (recordingDataRef st)) as [l|]; [|now left].
    destruct (Qle_bool _ (timestamp l)); cbn; [now left|].
    right; right. auto.
Qed.

(** The recorder's and replayer's cells after one animation frame. *)
Lemma animate_cells (currentTime replayNow : Q) (st : State) :
  let st' := fst (animate rapierStep currentTime replayNow st) in
  isRecording st' = isRecording st
  /\ hasRecording st' = hasRecording st
  /\ isRecordingRef st' = isRecordingRef st
  /\ recordingDataRef st' = recordingDataRef st
  /\ frameCountRef st' = frameCountRef st
  /\ isMounted st' = isMounted st
  /\ (robotArmRef st <> None -> robotArmRef st' <> None)
  /\ ((isReplaying st' = isReplaying st /\ isReplayingRef st' = isReplayingRef st)
      \/ (isReplaying st' = false /\ isReplayingRef st' = false)).
Proof.
  unfold animate. destruct (isMounted st) eqn:Hm; cbn.
  - destruct (worldRef st && negb (isReplayingRef st)) eqn:Hw; cbn.
    + apply andb_prop in Hw as [_ Hw]. apply negb_true_iff in Hw.
      rewrite Hw. cbn. intuition congruence.
    + destruct (isReplayingRef st) eqn:Hr; cbn.
      * destruct (replayFrame_cases replayNow
                    (withScene currentTime (objectsRef st) st))
          as [H | [(frame & arm & _ & _ & _ & H) | [_ H]]];
          rewrite H; cbn; intuition congruence.
      * intuition congruence.
  - intuition congruence.
Qed.

Lemma stamps_snoc (n : nat) :
  map stamp (seq 0 (S n)) = map stamp (seq 0 n) ++ [stamp n].
Proof. rewrite seq_S, map_app. reflexivity. Qed.

Lemma invariant_initial : Invariant initialState.
Proof. constructor; cbn; try reflexivity; try discriminate; congruence. Qed.

Lemma invariant_recordFixedFrame (st : State) :
  Invariant st -> Invariant (recordFixedFrame st).
Proof.
  intros I. unfold recordFixedFrame.
  destruct (robotArmRef st) as [arm|] eqn:Ha; [|exact I].
  destruct I. constructor; cbn; auto.
  - rewrite length_app. cbn. lia.
  - rewrite length_app, Nat.add_1_r, stamps_snoc, map_app, inv_stamps0, inv_count0.
    reflexivity.
  - intros _ _ H. now destruct (recordingDataRef st).
  - intros H. split; [|now apply inv_playing0].
    intros H'. now destruct (recordingDataRef st).
  - intros _. discriminate.
Qed.

Lemma invariant_step (st : State) (e : Event) :
  Invariant st -> Invariant (handleEvent rapierStep st e).
Proof.
  intros I. destruct e; cbn.
  - (* initPhysics *)
    unfold initPhysics. destruct (negb (isMounted st)); [exact I|].
    destruct (placeObjects _ _ _ _); [|exact I].
    destruct I. constructor; cbn; auto. discriminate.
  - (* startRecording *)
    unfold startRecording. destruct (isReplaying st) eqn:Hr; [exact I|].
    destruct I. constructor; cbn; auto; try discriminate. congruence.
  - (* stopRecording *)
    destruct I. constructor; cbn; auto.
    + destruct (recordingDataRef st); cbn; [discriminate|]. discriminate.
    + intros H. split; [now apply inv_playing0 | reflexivity].
  - (* startReplay *)
    unfold startReplay.
    destruct (negb (hasRecording st) || isRecording st) eqn:Hg; [exact I|].
    apply orb_false_elim in Hg as [Hh Hrec]. apply negb_false_iff in Hh.
    destruct I. constructor; cbn; auto.
  - (* stopReplay *)
    destruct I. constructor; cbn; auto. discriminate.
  - (* interval *)
    destruct (existsb _ _); [|exact I].
    unfold intervalCallback. destruct (isRecordingRef st); [|exact I].
    now apply invariant_recordFixedFrame.
  - (* animate *)
    pose proof (animate_cells currentTime replayNow st) as H. cbn in H.
    destruct H as (H1 & H2 & H3 & H4 & H5 & H6 & H7 & H8).
    destruct I. constructor; rewrite ?H1, ?H2, ?H3, ?H4, ?H5, ?H6; auto.
    + destruct H8 as [[-> ->] | [-> ->]]; auto.
    + destruct H8 as [[-> _] | [-> _]]; auto. discriminate.
  - (* pointer *)
    unfold onPointer. destruct (robotArmRef st) eqn:Ha; [|exact I].
    destruct I. constructor; cbn; auto. discriminate.
Qed.

Lemma reachable_invariant (st : State) :
  reachable rapierStep st -> Invariant st.
Proof.
  apply reachable_ind'; [exact invariant_initial|].
  intros st' e _. apply invariant_step.
Qed.

End Reachable.

(** ** Recorder: timestamps *)

Lemma stamp_value (i : nat) : stamp i == inject_Z (Z.of_nat i) * 100.
Proof. unfold stamp. setoid_replace (1000 / 10) with 100 by reflexivity. reflexivity. Qed.

Lemma nth_error_stamps (data : list Frame) (i : nat) (f : Frame) :
  map timestamp data = map stamp (seq 0 (List.length data)) ->
  nth_error data i = Some f ->
  timestamp f = stamp i.
Proof.
  intros Hs Hi.
  assert (Hlt : (i < List.length data)%nat)
    by (apply nth_error_Some; congruence).
  pose proof (map_nth_error timestamp i data Hi) as H.
  rewrite Hs in H.
  rewrite (map_nth_error stamp i (seq 0 (List.length data)) (d := i)) in H.
  - now inversion H.
  - rewrite nth_error_nth' with (d := 0%nat) by (rewrite length_seq; exact Hlt).
    now rewrite seq_nth.
Qed.

(** C2. In every state the component can reach, whatever the times at which
    the interval timer fired, the frame at index [i] of the buffer has
    timestamp [i * 100]; consecutive frames are exactly 100 apart and
    increasing; the frame counter is the number of frames; a timer tick
    while recording appends one frame, stamped with 100 times the number
    of frames before it; and [startRecording], when replay is not active,
    leaves an empty buffer and a counter of 0, so that the first frame has
    timestamp 0. *)
Theorem recorded_timestamps
    (rapierStep : option Vector3 -> list (Vector3 * Quaternion)
                  -> list (Vector3 * Quaternion))
    (st : State) :
  reachable rapierStep st ->
  (forall i f, nth_error (recordingDataRef st) i = Some f ->
               timestamp f == inject_Z (Z.of_nat i) * 100)
  /\ (forall i f g,
        nth_error (recordingDataRef st) i = Some f ->
        nth_error (recordingDataRef st) (S i) = Some g ->
        timestamp f < timestamp g /\ timestamp g - timestamp f == 100)
  /\ (forall f, nth_error (recordingDataRef st) 0 = Some f -> timestamp f == 0)
  /\ frameCountRef st = List.length (recordingDataRef st)
  /\ (isRecordingRef st = true -> robotArmRef st <> None ->
      exists frame,
        recordingDataRef (intervalCallback st) = recordingDataRef st ++ [frame]
        /\ timestamp frame
           == inject_Z (Z.of_nat (List.length (recordingDataRef st))) * 100)
  /\ (forall now, isReplaying st = false ->
        recordingDataRef (startRecording now st) = []
        /\ frameCountRef (startRecording now st) = 0%nat
        /\ forall f, nth_error (recordingDataRef
                                  (intervalCallback (startRecording now st))) 0
                     = Some f -> timestamp f == 0).
Proof.
  intros Hreach. destruct (reachable_invariant rapierStep st Hreach).
  assert (Hnth : forall i f, nth_error (recordingDataRef st) i = Some f ->
                             timestamp f == inject_Z (Z.of_nat i) * 100).
  { intros i f Hi. rewrite (nth_error_stamps _ i f inv_stamps0 Hi).
    apply stamp_value. }
  assert (Hnext : forall i f g,
             nth_error (recordingDataRef st) i = Some f ->
             nth_error (recordingDataRef st) (S i) = Some g ->
             timestamp g == timestamp f + 100).
  { intros i f g Hf Hg. rewrite (Hnth _ _ Hf), (Hnth _ _ Hg), Nat2Z.inj_succ.
    unfold Z.succ. rewrite inject_Z_plus.
    setoid_replace (inject_Z 1) with 1 by reflexivity. lra. }
  split; [exact Hnth|].
  split; [intros i f g Hf Hg; pose proof (Hnext i f g Hf Hg); lra|].
  split; [intros f Hf; rewrite (Hnth _ _ Hf); reflexivity|].
  split; [exact inv_count0|].
  split.
  { intros Hrec Harm. unfold intervalCallback, recordFixedFrame. rewrite Hrec.
    destruct (robotArmRef st); [|congruence].
    eexists. split; [reflexivity|]. cbn [timestamp].
    rewrite inv_count0. apply stamp_value. }
  intros now Hr. unfold startRecording, intervalCallback, recordFixedFrame.
  rewrite Hr. cbn. split; [reflexivity|]. split; [reflexivity|].
  destruct (robotArmRef st); cbn; [|discriminate].
  intros f Hf. inversion Hf. cbn. reflexivity.
Qed.

Lemma recorded_timestamps_witness :
  let st := run restingStep sampleRecording initialState in
  List.length (recordingDataRef st) = 3%nat
  /\ forall i f, nth_error (recordingDataRef st) i = Some f ->
                 timestamp f == inject_Z (Z.of_nat i) * 100.
Proof.
  intros st. split; [vm_compute; reflexivity|].
  apply (recorded_timestamps restingStep st).
  exists sampleRecording. reflexivity.
Defined.

(** ** Replayer: the frame that is imposed *)

Lemma find_first {A : Type} (p : A -> bool) (l : list A) (x : A) :
  find p l = Some x <->
  exists before after,
    l = before ++ x :: after /\ forallb (fun y => negb (p y)) before = true
    /\ p x = true.
Proof.
  induction l as [|a l IH]; cbn.
  - split; [discriminate|]. intros (before & after & H & _). now destruct before.
  - destruct (p a) eqn:Hp.
    + split.
      * intros [= ->]. exists [], l. auto.
      * intros ([|b before] & after & Heq & Hb & Hx).
        -- now inversion Heq.
        -- inversion Heq; subst. cbn in Hb. rewrite Hp in Hb. discriminate.
    + rewrite IH. split.
      * intros (before & after & -> & Hb & Hx).
        exists (a :: before), after. cbn. rewrite Hp. auto.
      * intros ([|b before] & after & Heq & Hb & Hx).
        -- inversion Heq; subst. congruence.
        -- inversion Heq; subst. cbn in Hb. rewrite Hp in Hb.
           exists before, after. auto.
Qed.

Lemma Qle_bool_false (a b : Q) : Qle_bool a b = false <-> b < a.
Proof.
  split.
  - intros H. apply Qnot_le_lt. intros Hle. apply Qle_bool_iff in Hle. congruence.
  - intros H. destruct (Qle_bool a b) eqn:E; [|reflexivity].
    apply Qle_bool_iff in E. lra.
Qed.

(** C3. On a replay tick (replay active, arm present), with
    [elapsed = now - replayStartTime]: the poses imposed are those of frame
    [frame] exactly when [frame] is the first frame of the buffer, in buffer
    order, with [timestamp >= elapsed]; so with frames at 0, 100 and 200 and
    [elapsed = 150] the frame at 200 is imposed. *)
Theorem replay_selects_first_frame (now : Q) (st : State) (arm : RobotArm) :
  isReplayingRef st = true ->
  robotArmRef st = Some arm ->
  let elapsed := now - replayStartTimeRef st in
  (forall frame,
     In (ImposeFrame frame) (snd (replayFrame now st)) <->
     exists before after,
       recordingDataRef st = before ++ frame :: after
       /\ Forall (fun f => timestamp f < elapsed) before
       /\ elapsed <= timestamp frame)
  /\ (forall frame,
        In (ImposeFrame frame) (snd (replayFrame now st)) ->
        replayFrame now st = (imposeFrame frame arm st, [ImposeFrame frame]))
  /\ (forall f0 f100 f200,
        recordingDataRef st = [f0; f100; f200] ->
        timestamp f0 == 0 -> timestamp f100 == 100 -> timestamp f200 == 200 ->
        elapsed == 150 ->
        replayFrame now st = (imposeFrame f200 arm st, [ImposeFrame f200])).
Proof.
  intros Hr Ha elapsed.
  assert (Hsel : forall frame,
             In (ImposeFrame frame) (snd (replayFrame now st)) <->
             find (fun f => Qle_bool elapsed (timestamp f)) (recordingDataRef st)
             = Some frame).
  { intros frame. unfold replayFrame. rewrite Hr, Ha. cbn.
    fold elapsed.
    destruct (find _ (recordingDataRef st)) as [g|] eqn:Hf; cbn.
    - split; [intros [[= ->]|[]]; reflexivity | intros [= ->]; now left].
    - split; [|discriminate].
      destruct (lastFrame _) as [l|]; [destruct (Qle_bool _ _)|]; cbn;
        intuition discriminate. }
  split; [|split].
  - intros frame. rewrite Hsel, find_first. split.
    + intros (before & after & Heq & Hb & Hx).
      exists before, after. split; [exact Heq|]. split.
      * apply Forall_forall. intros f Hf.
        rewrite forallb_forall in Hb. specialize (Hb f Hf).
        apply negb_true_iff in Hb. now apply Qle_bool_false in Hb.
      * now apply Qle_bool_iff.
    + intros (before & after & Heq & Hb & Hx).
      exists before, after. split; [exact Heq|]. split.
      * apply forallb_forall. intros f Hf.
        rewrite Forall_forall in Hb. specialize (Hb f Hf).
        apply negb_true_iff. now apply Qle_bool_false.
      * now apply Qle_bool_iff.
  - intros frame Hin. apply Hsel in Hin.
    unfold replayFrame. rewrite Hr, Ha. cbn. fold elapsed. now rewrite Hin.
  - intros f0 f100 f200 Hdata H0 H100 H200 He.
    unfold replayFrame. rewrite Hr, Ha, Hdata. cbn. fold elapsed.
    assert (E0 : Qle_bool elapsed (timestamp f0) = false)
      by (apply Qle_bool_false; lra).
    assert (E1 : Qle_bool elapsed (timestamp f100) = false)
      by (apply Qle_bool_false; lra).
    assert (E2 : Qle_bool elapsed (timestamp f200) = true)
      by (apply Qle_bool_iff; lra).
    now rewrite E0, E1, E2.
Qed.

Lemma replay_selects_first_frame_witness :
  replayFrame 1150 replayingState
  = (imposeFrame (frameAt 200) newRobotArm replayingState,
     [ImposeFrame (frameAt 200)]).
Proof.
  destruct (replay_selects_first_frame 1150 replayingState newRobotArm
              eq_refl eq_refl) as (_ & _ & H).
  apply (H (frameAt 0) (frameAt 100) (frameAt 200)); reflexivity.
Defined.

(** ** Replayer: the end of the trajectory *)

Lemma find_all_false {A : Type} (p : A -> bool) (l : list A) :
  (forall x, In x l -> p x = false) -> find p l = None.
Proof.
  induction l as [|a l IH]; cbn; intros H; [reflexivity|].
  rewrite (H a (or_introl eq_refl)). apply IH. intros x Hx. apply H. now right.
Qed.

Lemma stamp_le (i j : nat) : (i <= j)%nat -> stamp i <= stamp j.
Proof.
  intros H. rewrite !stamp_value.
  assert (inject_Z (Z.of_nat i) <= inject_Z (Z.of_nat j))
    by (rewrite <- Zle_Qle; lia).
  lra.
Qed.

(** In a buffer stamped by the recorder no frame is later than the last. *)
Lemma last_is_latest (data : list Frame) (l f : Frame) :
  map timestamp data = map stamp (seq 0 (List.length data)) ->
  lastFrame data = Some l -> In f data -> timestamp f <= timestamp l.
Proof.
  intros Hs Hl Hf. unfold lastFrame in Hl.
  apply In_nth_error in Hf as [i Hi].
  assert (Hlt : (i < List.length data)%nat) by (apply nth_error_Some; congruence).
  rewrite (nth_error_stamps data i f Hs Hi).
  rewrite (nth_error_stamps data _ l Hs Hl).
  apply stamp_le. lia.
Qed.

(** Past the last timestamp [replayFrame] finds no frame and stops. *)
Lemma replayFrame_past_end (now : Q) (st : State) (arm : RobotArm) (l : Frame) :
  isReplayingRef st = true ->
  robotArmRef st = Some arm ->
  lastFrame (recordingDataRef st) = Some l ->
  (forall f, In f (recordingDataRef st) -> timestamp f <= timestamp l) ->
  timestamp l < now - replayStartTimeRef st ->
  replayFrame now st = (stopReplay st, [StopReplay]).
Proof.
  intros Hr Ha Hl Hall Hlt. unfold replayFrame. rewrite Hr, Ha. cbn.
  rewrite find_all_false.
  - rewrite Hl.
    assert (E : Qle_bool (now - replayStartTimeRef st) (timestamp l) = false)
      by (now apply Qle_bool_false).
    now rewrite E.
  - intros f Hf. apply Qle_bool_false. specialize (Hall f Hf). lra.
Qed.

Section Idle.

Variable rapierStep :
  option Vector3 -> list (Vector3 * Quaternion) -> list (Vector3 * Quaternion).

(** An animation frame while replay is not active: no frame is imposed,
    nothing is stopped, and replay stays inactive. *)
Lemma animate_idle (currentTime replayNow : Q) (st : State) :
  isReplayingRef st = false ->
  filter isStopReplay (snd (animate rapierStep currentTime replayNow st)) = []
  /\ filter isImposeFrame (snd (animate rapierStep currentTime replayNow st)) = []
  /\ isReplayingRef (fst (animate rapierStep currentTime replayNow st)) = false.
Proof.
  intros Hr. unfold animate.
  destruct (isMounted st); cbn; [|auto].
  rewrite Hr. destruct (worldRef st); cbn; rewrite Hr; cbn; auto.
Qed.

Lemma handleEvent_idle (st : State) (e : Event) :
  isReplayingRef st = false -> isStartReplay e = false ->
  isReplayingRef (handleEvent rapierStep st e) = false.
Proof.
  intros Hr He. destruct e; cbn in *; try discriminate; auto.
  - unfold initPhysics. destruct (negb (isMounted st)); [exact Hr|].
    destruct (placeObjects _ _ _ _); [reflexivity || exact Hr | exact Hr].
  - unfold startRecording. destruct (isReplaying st); exact Hr.
  - destruct (existsb _ _); [|exact Hr]. unfold intervalCallback, recordFixedFrame.
    destruct (isRecordingRef st); [|exact Hr].
    destruct (robotArmRef st); exact Hr.
  - now apply animate_idle.
  - unfold onPointer. destruct (robotArmRef st); exact Hr.
Qed.

Lemma effectsOf_idle (events : list Event) (st : State) :
  isReplayingRef st = false ->
  forallb (fun e => negb (isStartReplay e)) events = true ->
  filter isStopReplay (effectsOf rapierStep events st) = []
  /\ filter isImposeFrame (effectsOf rapierStep events st) = []
  /\ isReplayingRef (run rapierStep events st) = false.
Proof.
  revert st. induction events as [|e events IH]; intros st Hr Hev; cbn.
  - auto.
  - cbn in Hev. apply andb_prop in Hev as [He Hev]. apply negb_true_iff in He.
    destruct (IH (handleEvent rapierStep st e)
                 (handleEvent_idle st e Hr He) Hev) as (H1 & H2 & H3).
    rewrite !filter_app, H1, H2. split; [|split]; [| |exact H3].
    + destruct e; cbn; try reflexivity.
      now destruct (animate_idle currentTime replayNow st Hr) as (-> & _ & _).
    + destruct e; cbn; try reflexivity.
      now destruct (animate_idle currentTime replayNow st Hr) as (_ & -> & _).
Qed.

(** C4. When replay is active and [elapsed] exceeds the timestamp of the
    last frame, [replayFrame] imposes nothing, calls [stopReplay] and both
    replay flags become false; over the animation frame in which this
    happens and everything that follows it (any events but a new
    [startReplay]) [stopReplay] is called exactly once and no frame is
    imposed. The call returns a state as any other: no error is raised. *)
Theorem replay_ends_once (st : State) (now : Q) (l : Frame) :
  reachable rapierStep st ->
  isReplayingRef st = true ->
  lastFrame (recordingDataRef st) = Some l ->
  timestamp l < now - replayStartTimeRef st ->
  replayFrame now st = (stopReplay st, [StopReplay])
  /\ isReplaying (stopReplay st) = false
  /\ isReplayingRef (stopReplay st) = false
  /\ forall currentTime later,
       forallb (fun e => negb (isStartReplay e)) later = true ->
       let events := EvAnimate currentTime now :: later in
       List.length (filter isStopReplay (effectsOf rapierStep events st)) = 1%nat
       /\ filter isImposeFrame (effectsOf rapierStep events st) = []
       /\ isReplayingRef (run rapierStep events st) = false
       /\ isReplaying (run rapierStep events st) = false.
Proof.
  intros Hreach Hr Hl Hlt.
  pose proof (reachable_invariant rapierStep st Hreach) as I.
  assert (Hplay : isReplaying st = true) by (rewrite (inv_replaying st I); exact Hr).
  destruct (inv_playing st I Hplay) as [Hne _].
  destruct (robotArmRef st) as [arm|] eqn:Ha;
    [|now destruct (inv_arm st I Hne)].
  assert (Hall : forall f, In f (recordingDataRef st) -> timestamp f <= timestamp l)
    by (intros f; apply last_is_latest; [apply (inv_stamps st I) | exact Hl]).
  split; [now apply (replayFrame_past_end now st arm l)|].
  split; [reflexivity|]. split; [reflexivity|].
  intros currentTime later Hlater events.
  assert (Htick : animate rapierStep currentTime now st
                  = (stopReplay (withScene currentTime (objectsRef st) st),
                     [RequestAnimationFrame; StopReplay; Render])).
  { unfold animate. rewrite (inv_mounted st I). cbn. rewrite Hr.
    rewrite andb_false_r. cbn. rewrite Hr.
    rewrite (replayFrame_past_end now _ arm l); auto. }
  assert (Hidle : isReplayingRef (handleEvent rapierStep st (EvAnimate currentTime now))
                  = false) by (cbn; now rewrite Htick).
  destruct (effectsOf_idle later _ Hidle Hlater) as (H1 & H2 & H3).
  unfold events. cbn [effectsOf run fold_left].
  rewrite !filter_app, H1, H2, Htick. cbn.
  split; [reflexivity|]. split; [reflexivity|]. split; [exact H3|].
  assert (I' : Invariant (run rapierStep (EvAnimate currentTime now :: later) st))
    by (apply (reachable_invariant rapierStep), reachable_run, Hreach).
  transitivity (isReplayingRef (run rapierStep (EvAnimate currentTime now :: later) st));
    [exact (inv_replaying _ I') | exact H3].
Qed.

End Idle.

Lemma replay_ends_once_witness :
  let st := run restingStep sampleReplay initialState in
  replayFrame 1300 st = (stopReplay st, [StopReplay]).
Proof.
  intros st.
  apply (replay_ends_once restingStep st 1300
           (nth 2 (recordingDataRef st) (frameAt 0))).
  - exists sampleReplay. reflexivity.
  - vm_compute. reflexivity.
  - vm_compute. reflexivity.
  - vm_compute. reflexivity.
Defined.

(** ** Animation frame: physics or replay *)

Section AnimationFrame.

Variable rapierStep :
  option Vector3 -> list (Vector3 * Quaternion) -> list (Vector3 * Quaternion).

Lemma replayFrame_effects (now : Q) (st : State) :
  snd (replayFrame now st) = []
  \/ (exists frame, snd (replayFrame now st) = [ImposeFrame frame])
  \/ snd (replayFrame now st) = [StopReplay].
Proof.
  destruct (replayFrame_cases now st)
    as [H | [(frame & arm & _ & _ & _ & H) | [_ H]]]; rewrite H; cbn; eauto.
Qed.

Lemma animate_live (currentTime replayNow : Q) (st : State) :
  isMounted st = true -> isReplayingRef st = false ->
  snd (animate rapierStep currentTime replayNow st)
  = RequestAnimationFrame
      :: (if worldRef st then [WorldStep] else []) ++ [SyncMeshes; Render].
Proof.
  intros Hm Hr. unfold animate. rewrite Hm. cbn. rewrite Hr.
  destruct (worldRef st); cbn; rewrite Hr; reflexivity.
Qed.

Lemma animate_replaying (currentTime replayNow : Q) (st : State) :
  isMounted st = true -> isReplayingRef st = true ->
  animate rapierStep currentTime replayNow st
  = (fst (replayFrame replayNow (withScene currentTime (objectsRef st) st)),
     RequestAnimationFrame
       :: snd (replayFrame replayNow (withScene currentTime (objectsRef st) st))
       ++ [Render]).
Proof.
  intros Hm Hr. unfold animate. rewrite Hm. cbn. rewrite Hr, andb_false_r. cbn.
  rewrite Hr. now destruct (replayFrame _ _).
Qed.

Lemma animate_unmounted (currentTime replayNow : Q) (st : State) :
  isMounted st = false -> animate rapierStep currentTime replayNow st = (st, []).
Proof. intros Hm. unfold animate. now rewrite Hm. Qed.

(** C6. In an animation frame the world is stepped only if replay is not
    active, and, the component being mounted and the world created, it is
    stepped whenever replay is not active. While replay is active the frame
    does what [replayFrame] does and nothing else to the scene: no step, no
    copy of body poses into meshes. A frame never both steps or syncs and
    imposes a recorded pose; when it steps, the step comes before the sync. *)
Theorem physics_xor_replay (currentTime replayNow : Q) (st : State) :
  let effects := snd (animate rapierStep currentTime replayNow st) in
  (In WorldStep effects -> isReplayingRef st = false)
  /\ (isMounted st = true -> worldRef st = true ->
      (In WorldStep effects <-> isReplayingRef st = false))
  /\ (isMounted st = true -> isReplayingRef st = true ->
      ~ In WorldStep effects /\ ~ In SyncMeshes effects
      /\ animate rapierStep currentTime replayNow st
         = (fst (replayFrame replayNow (withScene currentTime (objectsRef st) st)),
            RequestAnimationFrame
              :: snd (replayFrame replayNow
                        (withScene currentTime (objectsRef st) st))
              ++ [Render]))
  /\ (isReplayingRef st = false -> forall frame, ~ In (ImposeFrame frame) effects)
  /\ ~ ((In WorldStep effects \/ In SyncMeshes effects)
        /\ exists frame, In (ImposeFrame frame) effects)
  /\ (In WorldStep effects ->
      effects = [RequestAnimationFrame; WorldStep; SyncMeshes; Render]).
Proof.
  intros effects.
  assert (Hlive : isMounted st = true -> isReplayingRef st = false ->
                  (In WorldStep effects <-> worldRef st = true)
                  /\ (forall frame, ~ In (ImposeFrame frame) effects)
                  /\ (In WorldStep effects ->
                      effects = [RequestAnimationFrame; WorldStep; SyncMeshes; Render])).
  { intros Hm Hr. unfold effects. rewrite (animate_live _ _ _ Hm Hr).
    destruct (worldRef st); cbn; intuition (try discriminate; try congruence). }
  assert (Hrep : isMounted st = true -> isReplayingRef st = true ->
                 ~ In WorldStep effects /\ ~ In SyncMeshes effects).
  { intros Hm Hr. unfold effects. rewrite (animate_replaying _ _ _ Hm Hr). cbn.
    destruct (replayFrame_effects replayNow (withScene currentTime (objectsRef st) st))
      as [H | [[frame H] | H]]; rewrite H; cbn;
      intuition (try discriminate; try congruence). }
  assert (Hun : isMounted st = false -> effects = []).
  { intros Hm. unfold effects. now rewrite (animate_unmounted _ _ _ Hm). }
  destruct (isMounted st) eqn:Hm.
  2: { rewrite (Hun eq_refl). cbn.
       split; [intros []|]. split; [discriminate|]. split; [discriminate|].
       split; [intros _ frame []|]. split; [intros [[[]|[]] _]|]. intros []. }
  destruct (isReplayingRef st) eqn:Hr.
  - destruct (Hrep eq_refl eq_refl) as (H4 & H5).
    split; [intros H; now destruct (H4 H)|].
    split; [intros _ _; split; [intros H; now destruct (H4 H) | discriminate]|].
    split; [intros _ _; split; [exact H4|split; [exact H5|now apply animate_replaying]]|].
    split; [discriminate|].
    split; [intros [[H|H] _]; [exact (H4 H)|exact (H5 H)]|].
    intros H; now destruct (H4 H).
  - destruct (Hlive eq_refl eq_refl) as (H1 & H2 & H3).
    split; [reflexivity|].
    split; [intros _ Hw; split; [reflexivity | intros _; now apply H1]|].
    split; [discriminate|].
    split; [intros _; exact H2|].
    split; [intros [_ [frame Hf]]; exact (H2 frame Hf)|].
    exact H3.
Qed.

End AnimationFrame.

Lemma physics_xor_replay_witness :
  snd (animate restingStep 300 301 (run restingStep sampleRecording initialState))
  = [RequestAnimationFrame; WorldStep; SyncMeshes; Render]
  /\ ~ In WorldStep (snd (animate restingStep 1150 1151 replayingState))
  /\ ~ In SyncMeshes (snd (animate restingStep 1150 1151 replayingState)).
Proof.
  split.
  - destruct (physics_xor_replay restingStep 300 301
                (run restingStep sampleRecording initialState))
      as (_ & Hiff & _ & _ & _ & Horder).
    apply Horder, Hiff; vm_compute; reflexivity.
  - destruct (physics_xor_replay restingStep 1150 1151 replayingState)
      as (_ & _ & Hreplay & _).
    destruct (Hreplay eq_refl eq_refl) as (H1 & H2 & _). split; assumption.
Defined.

(** ** Misuse of the recorder and the replayer *)

(** C7. [startRecording] called while replay is active returns the state
    it was given: the buffer, the frame counter and the recording flags are
    as before. [startReplay] called without a recording, or while recording
    is active, returns the state it was given: no start time is taken and
    the replay flags are as before. In a reachable state the same holds
    when the activity is read off the refs, and when the buffer is empty. *)
Theorem misuse_is_noop
    (rapierStep : option Vector3 -> list (Vector3 * Quaternion)
                  -> list (Vector3 * Quaternion))
    (now : Q) (st : State) :
  (isReplaying st = true -> startRecording now st = st)
  /\ (hasRecording st = false \/ isRecording st = true -> startReplay now st = st)
  /\ (reachable rapierStep st ->
      (isReplayingRef st = true -> startRecording now st = st)
      /\ (isRecordingRef st = true -> startReplay now st = st)
      /\ (recordingDataRef st = [] -> startReplay now st = st)).
Proof.
  split; [|split].
  - intros H. unfold startRecording. now rewrite H.
  - intros [H|H]; unfold startReplay; rewrite H; cbn;
      [reflexivity | now rewrite orb_true_r].
  - intros Hreach. destruct (reachable_invariant rapierStep st Hreach).
    split; [|split].
    + intros H. unfold startRecording. now rewrite inv_replaying0, H.
    + intros H. unfold startReplay. now rewrite inv_recording0, H, orb_true_r.
    + intros H. unfold startReplay.
      destruct (hasRecording st) eqn:Hh; [|reflexivity].
      destruct (isRecording st) eqn:Hrec; [reflexivity|].
      now destruct (inv_has0 eq_refl eq_refl).
Qed.

Lemma misuse_is_noop_witness :
  startRecording 1200 replayingState = replayingState
  /\ startReplay 7 initialState = initialState
  /\ startReplay 7 (run restingStep sampleRecording initialState)
     = run restingStep sampleRecording initialState.
Proof.
  split; [|split].
  - destruct (misuse_is_noop restingStep 1200 replayingState) as (H & _ & _).
    apply H. reflexivity.
  - destruct (misuse_is_noop restingStep 7 initialState) as (_ & H & _).
    apply H. left. reflexivity.
  - destruct (misuse_is_noop restingStep 7
                (run restingStep sampleRecording initialState)) as (_ & H & _).
    apply H. right. vm_compute. reflexivity.
Defined.

(** ** Strings: what the adapters' statements need *)

Open Scope string_scope.

Lemma append_nil_r (s : string) : s ++ "" = s.
Proof. induction s as [|c s IH]; cbn; [reflexivity | now rewrite IH]. Qed.

Lemma append_assoc (s t u : string) : (s ++ t) ++ u = s ++ (t ++ u).
Proof. induction s as [|c s IH]; cbn; [reflexivity | now rewrite IH]. Qed.

Lemma length_append (s t : string) : length (s ++ t) = (length s + length t)%nat.
Proof. induction s as [|c s IH]; cbn; [reflexivity | now rewrite IH]. Qed.

Lemma prefix_spec (t s : string) :
  prefix t s = true <-> exists rest, s = t ++ rest.
Proof.
  revert s. induction t as [|c t IH]; intros s.
  - destruct s; cbn; split; eauto.
  - destruct s as [|d s]; cbn.
    + split; [discriminate | intros [rest H]; discriminate].
    + destruct (ascii_dec c d) as [->|Hcd].
      * rewrite IH. split; intros [rest H]; exists rest; [now rewrite H | now inversion H].
      * split; [discriminate | intros [rest H]; inversion H; congruence].
Qed.

Lemma includes_nil (t : string) : includes "" t = prefix t "" || false.
Proof. reflexivity. Qed.

Lemma includes_cons (c : ascii) (s t : string) :
  includes (String c s) t = prefix t (String c s) || includes s t.
Proof. reflexivity. Qed.

(** [includes] decides occurrence: [t] occurs in [s] when [s] is some text,
    then [t], then some text. *)
Lemma includes_spec (s t : string) :
  includes s t = true <-> exists before after, s = before ++ t ++ after.
Proof.
  induction s as [|c s IH].
  - rewrite includes_nil, orb_false_r, prefix_spec. split.
    + intros [rest H]. exists "", rest. exact H.
    + intros (before & after & H). destruct before; cbn in H; [eauto | discriminate].
  - rewrite includes_cons, orb_true_iff, IH, prefix_spec. split.
    + intros [[rest H] | (before & after & H)].
      * exists "", rest. exact H.
      * exists (String c before), after. cbn. now rewrite H.
    + intros ([|d before] & after & H); cbn in H.
      * left. eauto.
      * right. inversion H. eauto.
Qed.

(** ** Verification adapter *)

(** C9 as the specification words it fails: a lower-case answer does not
    contain "VERIFIED", and the adapter reports success on it. *)
Lemma verification_ignores_case :
  In (OnVerify true)
     (verifyWithGemini "key" true (JsonData true (TextString "verified")))
  /\ includes "verified" "VERIFIED" = false.
Proof. split; [cbn; do 3 right; left; reflexivity | reflexivity]. Qed.

(** C9, amended. With an API key and a renderer, [onVerify(true)] is called
    exactly when the response is ok and its candidate text, once put in
    upper case, contains "VERIFIED" and does not contain "NOT_VERIFIED";
    when [fetch] or [response.json()] fails, the status is not ok or the
    body is malformed, the exception is caught and the outcome is an alert,
    the result 'failed' and [onVerify(false)]; in every case [onVerify] is
    called exactly once and the function returns. Texts are ASCII. *)
Theorem verification_outcome (apiKey : string) (response : Fetched) :
  trimIsEmpty apiKey = false ->
  let effects := verifyWithGemini apiKey true response in
  (In (OnVerify true) effects <->
   exists s, response = JsonData true (TextString s)
             /\ occurs "VERIFIED" (toUpperCase s)
             /\ ~ occurs "NOT_VERIFIED" (toUpperCase s))
  /\ (throws response = true ->
      effects = [SetIsVerifying true; SetVerificationResult None; Alert;
                 SetVerificationResult (Some false); OnVerify false;
                 SetIsVerifying false])
  /\ List.length (filter isOnVerify effects) = 1%nat
  /\ (In (OnVerify false) effects <-> ~ In (OnVerify true) effects).
Proof.
  intros Hkey effects. subst effects. unfold verifyWithGemini. rewrite Hkey. cbn.
  assert (Hinc : forall s,
             includes (toUpperCase s) "VERIFIED"
             && negb (includes (toUpperCase s) "NOT_VERIFIED") = true
             <-> occurs "VERIFIED" (toUpperCase s)
                 /\ ~ occurs "NOT_VERIFIED" (toUpperCase s)).
  { intros s. unfold occurs.
    rewrite andb_true_iff, negb_true_iff, <- !includes_spec.
    destruct (includes (toUpperCase s) "NOT_VERIFIED"); intuition congruence. }
  assert (Hfail : forall r : Fetched,
             (forall s, r <> JsonData true (TextString s)) ->
             let failed := [SetIsVerifying true; SetVerificationResult None; Alert;
                            SetVerificationResult (Some false); OnVerify false;
                            SetIsVerifying false] in
             (In (OnVerify true) failed <->
              exists s, r = JsonData true (TextString s)
                        /\ occurs "VERIFIED" (toUpperCase s)
                        /\ ~ occurs "NOT_VERIFIED" (toUpperCase s))
             /\ (throws r = true -> failed = failed)
             /\ List.length (filter isOnVerify failed) = 1%nat
             /\ (In (OnVerify false) failed <-> ~ In (OnVerify true) failed)).
  { intros r Hr failed.
    assert (Hnot : ~ In (OnVerify true) failed)
      by (cbn; intuition discriminate).
    split; [split; [intros H; now destruct (Hnot H)
                   | intros (s & H & _); now destruct (Hr s)]|].
    split; [reflexivity|]. split; [reflexivity|].
    split; [intros _; exact Hnot | intros _; cbn; tauto]. }
  destruct response as [| | ok | [|] [|s|]];
    try (apply Hfail; intros s0; discriminate).
  - (* ok, no text: the result is the empty string *)
    cbn. split; [split; [intuition discriminate | intros (s & H & _); discriminate]|].
    split; [discriminate|]. split; [reflexivity|]. intuition discriminate.
  - (* ok, a text *)
    cbn.
    destruct (includes (toUpperCase s) "VERIFIED"
              && negb (includes (toUpperCase s) "NOT_VERIFIED")) eqn:E; cbn.
    + apply Hinc in E. split; [|split; [discriminate|split; [reflexivity|]]].
      * split; [intros _; exists s; tauto | tauto].
      * intuition discriminate.
    + split; [|split; [discriminate|split; [reflexivity|]]].
      * split; [intuition discriminate|].
        intros (s' & [= <-] & H). apply Hinc in H. congruence.
      * intuition discriminate.
Qed.

Lemma verification_outcome_witness :
  In (OnVerify true)
     (verifyWithGemini "key" true
        (JsonData true (TextString "The task is Verified.")))
  /\ verifyWithGemini "key" true FetchRejected
     = [SetIsVerifying true; SetVerificationResult None; Alert;
        SetVerificationResult (Some false); OnVerify false; SetIsVerifying false].
Proof.
  split.
  - apply (verification_outcome "key"
             (JsonData true (TextString "The task is Verified.")) eq_refl).
    exists "The task is Verified.". split; [reflexivity|]. split.
    + exists "THE TASK IS ", ".". reflexivity.
    + intros H. apply includes_spec in H. discriminate.
  - apply (verification_outcome "key" FetchRejected eq_refl). reflexivity.
Defined.

Close Scope string_scope.

(** ** CSV export *)

Open Scope string_scope.

Lemma concat_cons (sep x : string) (l : list string) :
  l <> [] -> concat sep (x :: l) = x ++ sep ++ concat sep l.
Proof. destruct l; [congruence | reflexivity]. Qed.

Lemma concat_app (sep : string) (l1 l2 : list string) :
  l1 <> [] -> l2 <> [] ->
  concat sep (l1 ++ l2) = concat sep l1 ++ sep ++ concat sep l2.
Proof.
  intros H1 H2. induction l1 as [|x l1 IH]; [congruence|].
  destruct l1 as [|y l1].
  - cbn [app]. now rewrite concat_cons.
  - change ((x :: y :: l1) ++ l2)%list with (x :: (y :: l1) ++ l2)%list.
    rewrite !concat_cons by (try discriminate; now destruct l1).
    rewrite IH by discriminate. now rewrite !append_assoc.
Qed.

Lemma csvHeader_fold (columns : list string) (start n : nat) :
  columns <> [] ->
  fold_left
    (fun csvHeader i =>
       let n := digitsOf (N.of_nat (i + 1)) in
       (csvHeader
          ++ (",Object" ++ n ++ "_Pos_X,Object" ++ n ++ "_Pos_Y,Object" ++ n ++ "_Pos_Z"))
         ++ (",Object" ++ n ++ "_Rot_X,Object" ++ n ++ "_Rot_Y,Object" ++ n
               ++ "_Rot_Z,Object" ++ n ++ "_Rot_W"))
    (seq start n) (concat "," columns)
  = concat "," (columns ++ flat_map objectColumns (seq (S start) n)).
Proof.
  revert columns start. induction n as [|n IH]; intros columns start Hne.
  - cbn. now rewrite app_nil_r.
  - cbn [seq flat_map fold_left].
    rewrite app_assoc, <- IH by (now destruct columns).
    f_equal. rewrite concat_app by (try discriminate; exact Hne).
    rewrite Nat.add_1_r. unfold objectColumns.
    generalize (digitsOf (N.of_nat (S start))) as d. intros d.
    generalize (concat "," columns) as h. intros h.
    repeat (progress (cbn; rewrite ?append_assoc)). reflexivity.
Qed.

Lemma csvHeader_columns (objectCount : nat) :
  csvHeader objectCount = concat "," (headerColumns objectCount).
Proof.
  unfold csvHeader, headerColumns.
  apply (csvHeader_fold ["Timestamp"; "RobotArm_X"; "RobotArm_Y"; "RobotArm_Z"]
           0 objectCount).
  discriminate.
Qed.

Lemma csvRow_fold (fields : list string) (objs : list ObjectState)
    (numberToString : Q -> string) :
  fields <> [] ->
  fold_left
    (fun row obj =>
       (row
          ++ ("," ++ toFixed numberToString 6 (v_x (os_position obj))
               ++ "," ++ toFixed numberToString 6 (v_y (os_position obj))
               ++ "," ++ toFixed numberToString 6 (v_z (os_position obj))))
         ++ ("," ++ toFixed numberToString 6 (q_x (os_rotation obj))
               ++ "," ++ toFixed numberToString 6 (q_y (os_rotation obj))
               ++ "," ++ toFixed numberToString 6 (q_z (os_rotation obj))
               ++ "," ++ toFixed numberToString 6 (q_w (os_rotation obj))))
    objs (concat "," fields)
  = concat "," (fields ++ flat_map (objectFields numberToString) objs).
Proof.
  revert fields. induction objs as [|obj objs IH]; intros fields Hne.
  - cbn. now rewrite app_nil_r.
  - cbn [flat_map fold_left].
    rewrite app_assoc, <- IH by (now destruct fields).
    f_equal. rewrite concat_app by (try discriminate; exact Hne).
    unfold objectFields.
    generalize (toFixed numberToString 6 (v_x (os_position obj))) as a.
    generalize (toFixed numberToString 6 (v_y (os_position obj))) as b.
    generalize (toFixed numberToString 6 (v_z (os_position obj))) as c.
    generalize (toFixed numberToString 6 (q_x (os_rotation obj))) as d.
    generalize (toFixed numberToString 6 (q_y (os_rotation obj))) as e.
    generalize (toFixed numberToString 6 (q_z (os_rotation obj))) as f.
    generalize (toFixed numberToString 6 (q_w (os_rotation obj))) as g.
    generalize (concat "," fields) as h. intros h g f e d c b a.
    repeat (progress (cbn; rewrite ?append_assoc)). reflexivity.
Qed.

(** A row is its fields with commas between them. *)
Lemma csvRow_fields (numberToString : Q -> string) (frame : Frame) :
  csvRow numberToString frame = concat "," (rowFields numberToString frame).
Proof.
  unfold csvRow, rowFields.
  apply (csvRow_fold
           [toFixed numberToString 3 (timestamp frame);
            toFixed numberToString 6 (v_x (robotArm frame));
            toFixed numberToString 6 (v_y (robotArm frame));
            toFixed numberToString 6 (v_z (robotArm frame))]).
  discriminate.
Qed.

Lemma allChars_append (p : ascii -> bool) (s t : string) :
  allChars p (s ++ t) = allChars p s && allChars p t.
Proof. induction s as [|c s IH]; cbn; [reflexivity | now rewrite IH, andb_assoc]. Qed.

Lemma allChars_impl (p q : ascii -> bool) (s : string) :
  (forall c, p c = true -> q c = true) -> allChars p s = true -> allChars q s = true.
Proof.
  intros H. induction s as [|c s IH]; cbn; [reflexivity|].
  rewrite !andb_true_iff. intros [Hc Hs]. auto.
Qed.

Lemma allChars_substring (p : ascii -> bool) (n m : nat) (s : string) :
  allChars p s = true -> allChars p (substring n m s) = true.
Proof.
  revert n m. induction s as [|c s IH]; intros [|n] [|m]; cbn; auto.
  - rewrite !andb_true_iff. intros [Hc Hs]. auto.
  - rewrite !andb_true_iff. intros [Hc Hs]. auto.
  - rewrite !andb_true_iff. intros [Hc Hs]. auto.
Qed.

Lemma length_substring (n m : nat) (s : string) :
  (n + m <= length s)%nat -> length (substring n m s) = m.
Proof.
  revert n m. induction s as [|c s IH]; intros [|n] [|m]; cbn; intros H;
    try reflexivity; try lia.
  - f_equal. apply (IH 0%nat). cbn. lia.
  - apply IH. lia.
  - apply IH. lia.
Qed.

Lemma length_zeros (n : nat) : length (zeros n) = n.
Proof. induction n; cbn; congruence. Qed.

Lemma allChars_zeros (n : nat) : allChars isDigit (zeros n) = true.
Proof. induction n; cbn; auto. Qed.

Lemma digitsOf_digits (n : N) : allChars isDigit (digitsOf n) = true.
Proof.
  unfold digitsOf.
  assert (H : forall d, allChars isDigit (NilEmpty.string_of_uint d) = true)
    by (induction d; cbn; auto).
  destruct (N.to_uint n) eqn:E; try (rewrite <- E; unfold NilZero.string_of_uint;
    rewrite E; apply H). reflexivity.
Qed.

Lemma digitsOf_nonempty (n : N) : digitsOf n <> "".
Proof.
  unfold digitsOf, NilZero.string_of_uint.
  destruct (N.to_uint n); cbn; discriminate.
Qed.

Lemma substring_nonempty (m : nat) (s : string) :
  s <> "" -> substring 0 (S m) s <> "".
Proof. destruct s; cbn; [congruence | discriminate]. Qed.

(** Below 10^21, [toFixed] with [f > 0] prints a sign, the digits of the
    whole part, a point and exactly [f] digits. *)
Lemma toFixed_shape (numberToString : Q -> string) (f : nat) (x : Q) :
  (0 < f)%nat -> printable x = true -> fixedDecimal f (toFixed numberToString f x).
Proof.
  intros Hf Hx. unfold printable, Qlt_bool in Hx.
  apply negb_true_iff, Qle_bool_false in Hx. unfold toFixed.
  set (sign := if Qlt_bool x 0 then "-" else "").
  set (x' := if Qlt_bool x 0 then (- x)%Q else x).
  assert (Hx' : Qle_bool (inject_Z (10 ^ 21)) x' = false).
  { apply Qle_bool_false. unfold x'.
    destruct (Qlt_bool x 0).
    - eapply Qle_lt_trans; [|exact Hx]. rewrite <- Qabs_opp. apply Qle_Qabs.
    - eapply Qle_lt_trans; [|exact Hx]. apply Qle_Qabs. }
  rewrite Hx'.
  destruct (f =? 0)%nat eqn:Ef; [apply Nat.eqb_eq in Ef; lia|].
  set (n := Z.to_N (Qfloor (x' * inject_Z (10 ^ Z.of_nat f) + (1 # 2)))).
  set (m := if (length (digitsOf n) <=? f)%nat
            then zeros (f + 1 - length (digitsOf n)) ++ digitsOf n
            else digitsOf n).
  assert (Hlen : (f < length m)%nat).
  { unfold m. destruct (Nat.leb_spec (length (digitsOf n)) f).
    - rewrite length_append, length_zeros. lia.
    - lia. }
  assert (Hdig : allChars isDigit m = true).
  { unfold m. destruct (length (digitsOf n) <=? f)%nat.
    - now rewrite allChars_append, allChars_zeros, digitsOf_digits.
    - apply digitsOf_digits. }
  exists sign, (substring 0 (length m - f) m), (substring (length m - f) f m).
  split; [reflexivity|].
  split; [unfold sign; destruct (Qlt_bool x 0); auto|].
  split.
  { destruct (length m - f)%nat eqn:E; [lia|].
    apply substring_nonempty. clearbody m. clear - Hlen.
    destruct m; [cbn in Hlen; lia | discriminate]. }
  split; [now apply allChars_substring|].
  split; [now apply allChars_substring|].
  apply length_substring. lia.
Qed.

Lemma lines_cons (c : ascii) (s : string) :
  lines (String c s)
  = if Ascii.eqb c (ascii_of_nat 10) then "" :: lines s
    else match lines s with
         | [] => [String c ""]
         | line :: rest => String c line :: rest
         end.
Proof. reflexivity. Qed.

Lemma lines_single (s : string) :
  allChars notLineFeed s = true -> lines s = [s].
Proof.
  induction s as [|c s IH]; [reflexivity|].
  cbn [allChars]. rewrite andb_true_iff. unfold notLineFeed at 1. intros [Hc Hs].
  apply negb_true_iff in Hc. rewrite lines_cons, Hc, (IH Hs). reflexivity.
Qed.

Lemma lines_append (s rest : string) :
  allChars notLineFeed s = true ->
  lines (s ++ newline ++ rest) = s :: lines rest.
Proof.
  induction s as [|c s IH]; [reflexivity|].
  cbn [allChars]. rewrite andb_true_iff. unfold notLineFeed at 1. intros [Hc Hs].
  apply negb_true_iff in Hc.
  change (String c s ++ newline ++ rest) with (String c (s ++ newline ++ rest)).
  rewrite lines_cons, Hc, (IH Hs). reflexivity.
Qed.

(** Texts without line feed, joined by line feeds, are the lines of what
    they make. *)
Lemma lines_concat (l : list string) :
  l <> [] -> Forall (fun s => allChars notLineFeed s = true) l ->
  lines (concat newline l) = l.
Proof.
  induction l as [|s l IH]; [congruence|]. intros _ Hall.
  inversion Hall as [|? ? Hs Hl]; subst.
  destruct l as [|t l].
  - cbn. now apply lines_single.
  - rewrite concat_cons by discriminate.
    rewrite lines_append by exact Hs. f_equal. apply IH; [discriminate | exact Hl].
Qed.

Lemma allChars_concat (p : ascii -> bool) (sep : string) (l : list string) :
  allChars p sep = true -> Forall (fun s => allChars p s = true) l ->
  allChars p (concat sep l) = true.
Proof.
  intros Hsep. induction l as [|s l IH]; intros Hall; [reflexivity|].
  inversion Hall as [|? ? Hs Hl]; subst.
  destruct l as [|t l]; [exact Hs|].
  rewrite concat_cons by discriminate.
  rewrite !allChars_append, Hs, Hsep, (IH Hl). reflexivity.
Qed.

Lemma digit_notLineFeed (c : ascii) : isDigit c = true -> notLineFeed c = true.
Proof.
  unfold isDigit, notLineFeed. intros H. apply andb_prop in H as [H _].
  apply Nat.leb_le in H. apply negb_true_iff, Ascii.eqb_neq. intros ->.
  cbn in H. lia.
Qed.

Lemma fixedDecimal_notLineFeed (f : nat) (s : string) :
  fixedDecimal f s -> allChars notLineFeed s = true.
Proof.
  intros (sign & whole & fraction & -> & Hsign & _ & Hw & Hfr & _).
  rewrite !allChars_append.
  rewrite (allChars_impl _ _ _ digit_notLineFeed Hw).
  rewrite (allChars_impl _ _ _ digit_notLineFeed Hfr).
  destruct Hsign as [-> | ->]; reflexivity.
Qed.

Lemma headerColumns_notLineFeed (objectCount : nat) :
  Forall (fun s => allChars notLineFeed s = true) (headerColumns objectCount).
Proof.
  unfold headerColumns. apply Forall_app. split.
  - repeat constructor.
  - apply Forall_flat_map, Forall_forall. intros i _. unfold objectColumns.
    assert (Hd : allChars notLineFeed (digitsOf (N.of_nat i)) = true)
      by (apply (allChars_impl _ _ _ digit_notLineFeed), digitsOf_digits).
    repeat constructor; rewrite !allChars_append, Hd; reflexivity.
Qed.

Lemma length_headerColumns (objectCount : nat) :
  List.length (headerColumns objectCount) = (4 + 7 * objectCount)%nat.
Proof.
  assert (H : forall start n,
             List.length (flat_map objectColumns (seq start n)) = (7 * n)%nat).
  { intros start n. revert start.
    induction n as [|n IH]; intros start; [reflexivity|].
    cbn [seq flat_map]. rewrite length_app, IH. cbn. lia. }
  unfold headerColumns. rewrite length_app, H. reflexivity.
Qed.

Lemma rowFields_shape (numberToString : Q -> string) (frame : Frame) :
  printableFrame frame = true ->
  exists stampField fields,
    rowFields numberToString frame = stampField :: fields
    /\ fixedDecimal 3 stampField
    /\ Forall (fixedDecimal 6) fields
    /\ List.length fields = (3 + 7 * List.length (objects frame))%nat.
Proof.
  unfold printableFrame, printableVector. rewrite !andb_true_iff, forallb_forall.
  intros ((Ht & (Hx & Hy) & Hz) & Hobjs). unfold rowFields.
  eexists _, _. split; [reflexivity|].
  split; [apply toFixed_shape; [lia | exact Ht]|].
  assert (H6 : forall x, printable x = true ->
                         fixedDecimal 6 (toFixed numberToString 6 x))
    by (intros x; apply toFixed_shape; lia).
  split.
  - repeat (apply Forall_cons; [now apply H6|]).
    apply Forall_flat_map, Forall_forall. intros obj Hobj.
    specialize (Hobjs obj Hobj). unfold printableVector in Hobjs.
    rewrite !andb_true_iff in Hobjs.
    destruct Hobjs as ((((((Hpx & Hpy) & Hpz) & Hqx) & Hqy) & Hqz) & Hqw).
    unfold objectFields. repeat (apply Forall_cons; [now apply H6|]). constructor.
  - assert (H : forall objs,
               List.length (flat_map (objectFields numberToString) objs)
               = (7 * List.length objs)%nat).
    { induction objs as [|obj objs IH]; [reflexivity|].
      cbn [flat_map]. rewrite length_app, IH. cbn. lia. }
    cbn [List.length app]. rewrite H. lia.
Qed.

(** C8 as the specification words it fails on the header: the exported
    file names the arm's columns [RobotArm_X/Y/Z], and [EndEffector]
    occurs nowhere in it. *)
Lemma export_header_names_the_arm :
  let st := run restingStep (sampleRecording ++ [EvStopRecording]) initialState in
  exists csv,
    saveRecordingAsCSV (fun _ => "") st = Some csv
    /\ hd "" (lines csv) = concat "," (headerColumns 3)
    /\ hd "" (lines csv) <> concat "," (specifiedHeaderColumns 3)
    /\ includes csv "EndEffector" = false.
Proof.
  eexists. split; [vm_compute; reflexivity|].
  split; [vm_compute; reflexivity|].
  split; [vm_compute; discriminate | vm_compute; reflexivity].
Qed.

(** C8, amended. With a recording whose numbers are below 10^21, the
    export is the header line followed by one line per recorded frame. The
    header is [Timestamp], [RobotArm_X], [RobotArm_Y], [RobotArm_Z], then
    [Object{i}_Pos_X/Y/Z] and [Object{i}_Rot_X/Y/Z/W] for [i = 1..N], [N]
    the number of objects of the first frame, comma-separated. A frame's
    line is its fields comma-separated: the timestamp with exactly 3
    decimals, then every coordinate and quaternion channel with exactly 6. *)
Theorem csv_export (numberToString : Q -> string) (st : State)
    (firstFrame : Frame) (others : list Frame) :
  hasRecording st = true ->
  recordingDataRef st = firstFrame :: others ->
  forallb printableFrame (recordingDataRef st) = true ->
  let header := concat "," (headerColumns (List.length (objects firstFrame))) in
  let rows := map (fun frame => concat "," (rowFields numberToString frame))
                  (recordingDataRef st) in
  saveRecordingAsCSV numberToString st = Some (concat newline (header :: rows))
  /\ lines (concat newline (header :: rows)) = header :: rows
  /\ List.length rows = List.length (recordingDataRef st)
  /\ List.length (headerColumns (List.length (objects firstFrame)))
     = (4 + 7 * List.length (objects firstFrame))%nat
  /\ forall frame, In frame (recordingDataRef st) ->
       exists stampField fields,
         rowFields numberToString frame = stampField :: fields
         /\ fixedDecimal 3 stampField
         /\ Forall (fixedDecimal 6) fields
         /\ List.length fields = (3 + 7 * List.length (objects frame))%nat.
Proof.
  intros Hhas Hdata Hprint header rows.
  assert (Hrows : forall frame, In frame (recordingDataRef st) ->
            exists stampField fields,
              rowFields numberToString frame = stampField :: fields
              /\ fixedDecimal 3 stampField
              /\ Forall (fixedDecimal 6) fields
              /\ List.length fields = (3 + 7 * List.length (objects frame))%nat).
  { intros frame Hin. apply rowFields_shape.
    rewrite forallb_forall in Hprint. now apply Hprint. }
  split; [|split; [|split; [|split]]].
  - unfold saveRecordingAsCSV. rewrite Hhas, Hdata. cbn [negb orb List.length Nat.eqb].
    unfold header, rows. rewrite Hdata, csvHeader_columns.
    do 3 f_equal. apply map_ext. intros frame. apply csvRow_fields.
  - apply lines_concat; [discriminate|]. constructor.
    + apply allChars_concat; [reflexivity | apply headerColumns_notLineFeed].
    + unfold rows. apply Forall_map, Forall_forall. intros frame Hin.
      destruct (Hrows frame Hin) as (stampField & fields & -> & H3 & H6 & _).
      apply allChars_concat; [reflexivity|]. constructor.
      * eapply fixedDecimal_notLineFeed, H3.
      * eapply Forall_impl; [|exact H6]. apply fixedDecimal_notLineFeed.
  - unfold rows. apply length_map.
  - apply length_headerColumns.
  - exact Hrows.
Qed.

Lemma csv_export_witness :
  let st := run restingStep (sampleRecording ++ [EvStopRecording]) initialState in
  exists header rows,
    lines (concat newline (header :: rows)) = header :: rows
    /\ saveRecordingAsCSV (fun _ => "") st = Some (concat newline (header :: rows))
    /\ List.length rows = 3%nat.
Proof.
  intros st.
  destruct (csv_export (fun _ => "") st
              (nth 0 (recordingDataRef st) (frameAt 0))
              (tl (recordingDataRef st)))
    as (H1 & H2 & H3 & _).
  - vm_compute. reflexivity.
  - vm_compute. reflexivity.
  - vm_compute. reflexivity.
  - eexists _, _. split; [exact H2|]. split; [exact H1|].
    rewrite H3. vm_compute. reflexivity.
Defined.

Close Scope string_scope.

(** ** Orientation through record, replay and export *)

Lemma imposeObjects_nth (states : list ObjectState) (objs : list SceneObject)
    (i : nat) (s : ObjectState) (o : SceneObject) :
  nth_error states i = Some s -> nth_error objs i = Some o ->
  nth_error (imposeObjects states objs) i = Some (imposeObject s o).
Proof.
  revert objs i. induction states as [|s' states IH]; intros [|o' objs] [|i];
    cbn; try discriminate.
  - now intros [= ->] [= ->].
  - apply IH.
Qed.

Lemma imposeObjects_beyond (states : list ObjectState) (objs : list SceneObject)
    (i : nat) :
  nth_error states i = None ->
  nth_error (imposeObjects states objs) i = nth_error objs i.
Proof.
  revert objs i. induction states as [|s' states IH]; intros [|o' objs] [|i];
    cbn; try discriminate; try reflexivity.
  apply IH.
Qed.

Lemma swapYZ_involutive (q : Quaternion) : swapYZ (swapYZ q) = q.
Proof. now destruct q. Qed.

(** The frame that the selection rule of [replayFrame] picks is imposed. *)
Lemma replayFrame_imposes (now : Q) (st : State) (arm : RobotArm) (frame : Frame)
    (before after : list Frame) :
  isReplayingRef st = true ->
  robotArmRef st = Some arm ->
  recordingDataRef st = before ++ frame :: after ->
  Forall (fun f => timestamp f < now - replayStartTimeRef st) before ->
  now - replayStartTimeRef st <= timestamp frame ->
  replayFrame now st = (imposeFrame frame arm st, [ImposeFrame frame]).
Proof.
  intros Hr Ha Hdata Hbefore Hframe. unfold replayFrame. rewrite Hr, Ha. cbn [negb].
  assert (Hfind : find (fun f => Qle_bool (now - replayStartTimeRef st) (timestamp f))
                       (recordingDataRef st) = Some frame).
  { apply find_first. exists before, after. split; [exact Hdata|]. split.
    - apply forallb_forall. intros f Hf. rewrite Forall_forall in Hbefore.
      apply negb_true_iff, Qle_bool_false. now apply Hbefore.
    - now apply Qle_bool_iff. }
  now rewrite Hfind.
Qed.



(** ** Coordinate normalizer: the round trip *)

Lemma underflow_unit_small : underflow_unit <= 1 # 1000000000000000000.
Proof. unfold Qle. vm_compute. discriminate. Qed.

Section RoundTrip.

Variable rnd : Q -> Q.

(** Binary64 rounding to nearest of a number below the overflow threshold
    is off by at most the relative error 2^-53 plus, for a result in the
    subnormal range, half the smallest subnormal. The analysis needs this
    of numbers of magnitude at most 10000 only. *)
Hypothesis rnd_binary64 :
  forall q, Qabs q <= 10000 ->
            Qabs (rnd q - q) <= unit_roundoff * Qabs q + underflow_unit.

Lemma rnd_absolute (q : Q) :
  -(10000) <= q <= 10000 -> q - roundingError <= rnd q <= q + roundingError.
Proof.
  intros Hq.
  assert (Ha : Qabs q <= 10000) by (apply Qabs_Qle_condition; lra).
  pose proof (rnd_binary64 q Ha) as H.
  assert (Hb : Qabs (rnd q - q) <= roundingError).
  { eapply Qle_trans; [exact H|]. pose proof underflow_unit_small as Hu.
    unfold unit_roundoff, roundingError.
    assert (0 <= Qabs q) by apply Qabs_nonneg. nra. }
  apply Qabs_Qle_condition in Hb. lra.
Qed.

Lemma small_product (a b e M : Q) :
  -e <= a <= e -> -M <= b <= M -> -(e * M) <= a * b <= e * M.
Proof. intros Ha Hb. split; nra. Qed.

Lemma fraction_of (s W : Q) : 0 <= s <= 1 -> 0 <= W -> 0 <= s * W <= W.
Proof. intros Hs HW. split; nra. Qed.

Lemma quotient_near (a c A k m : Q) :
  0 < m <= c -> 0 <= k -> -(k * m) <= a - A * c <= k * m -> -k <= a / c - A <= k.
Proof.
  intros [Hm Hc] Hk Ha.
  assert (Hc0 : 0 < c) by lra.
  assert (Hq : (a / c - A) * c == a - A * c) by (field; lra).
  split; apply (Qmult_le_r _ _ c Hc0); nra.
Qed.

(** One axis: [lo] and [hi] are the rounded bounds of a physical range
    [[L, L + W]]; a coordinate of the table comes back within 10^-6. *)
Lemma axis_round_trip (L W lo hi v : Q) :
  (2#10) <= W <= (4#10) -> -1 <= L <= 1 ->
  L - roundingError <= lo <= L + roundingError ->
  L + W - roundingError <= hi <= L + W + roundingError ->
  -3 <= v <= 3 ->
  v - 0.000001 <= denormalizeAxis rnd lo hi (normalizeAxis rnd lo hi v)
  <= v + 0.000001.
Proof.
  intros HW HL Hlo Hhi Hv.
  unfold denormalizeAxis, normalizeAxis, fadd, fsub, fmul, fdiv, lit.
  pose proof (rnd_absolute 3) as R3. pose proof (rnd_absolute 6) as R6.
  remember (rnd 3) as c3. remember (rnd 6) as c6.
  assert (R3' : 3 - roundingError <= c3 <= 3 + roundingError) by lra.
  assert (R6' : 6 - roundingError <= c6 <= 6 + roundingError) by lra.
  clear R3 R6 Heqc3 Heqc6.
  pose proof (rnd_absolute (hi - lo)) as Rd. remember (rnd (hi - lo)) as d.
  assert (Rd' : W - 3 * roundingError <= d <= W + 3 * roundingError)
    by (unfold roundingError in *; lra).
  clear Rd Heqd.
  pose proof (rnd_absolute (v + c3)) as R1. remember (rnd (v + c3)) as t1.
  assert (R1' : v + 3 - 2 * roundingError <= t1 <= v + 3 + 2 * roundingError)
    by (unfold roundingError in *; lra).
  clear R1 Heqt1.
  remember ((v + 3) * (1#6)) as s.
  assert (Hs' : s == (v + 3) * (1#6)) by (rewrite Heqs; reflexivity). clear Heqs.
  assert (Hs : 0 <= s <= 1) by lra.
  assert (Hvs : v == 6 * s - 3) by lra. clear Hs'.
  assert (Q1 : -roundingError <= t1 / c6 - s <= roundingError).
  { apply (quotient_near t1 c6 s roundingError 5); unfold roundingError in *; try lra.
    pose proof (small_product (c6 - 6) s roundingError 1).
    unfold roundingError in *. lra. }
  pose proof (rnd_absolute (t1 / c6)) as R2. remember (rnd (t1 / c6)) as t2.
  assert (R2' : s - 2 * roundingError <= t2 <= s + 2 * roundingError)
    by (unfold roundingError in *; lra).
  clear R2 Heqt2 Q1 R1' t1.
  pose proof (fraction_of s W Hs) as HsW.
  assert (P1 : s * W - 4 * roundingError <= t2 * d <= s * W + 4 * roundingError).
  { pose proof (small_product (t2 - s) d (2 * roundingError) (1#2)).
    pose proof (small_product (d - W) s (3 * roundingError) 1).
    unfold roundingError in *. lra. }
  pose proof (rnd_absolute (t2 * d)) as R3. remember (rnd (t2 * d)) as t3.
  assert (R3'' : s * W - 5 * roundingError <= t3 <= s * W + 5 * roundingError)
    by (unfold roundingError in *; lra).
  clear R3 Heqt3 P1.
  pose proof (rnd_absolute (lo + t3)) as R4. remember (rnd (lo + t3)) as nx.
  assert (R4' : L + s * W - 7 * roundingError <= nx <= L + s * W + 7 * roundingError)
    by (unfold roundingError in *; lra).
  clear R4 Heqnx.
  assert (Hp : L + s * W - 7 * roundingError <= Qmax lo (Qmin hi nx)
               <= L + s * W + 7 * roundingError).
  { unfold roundingError in *.
    destruct (Q.max_spec lo (Qmin hi nx)) as [[? ->]|[? ->]];
    destruct (Q.min_spec hi nx) as [[? Hm]|[? Hm]]; rewrite Hm in *; lra. }
  remember (Qmax lo (Qmin hi nx)) as p. clear Heqp R4' nx.
  pose proof (rnd_absolute (p - lo)) as R5. remember (rnd (p - lo)) as u1.
  assert (R5' : s * W - 9 * roundingError <= u1 <= s * W + 9 * roundingError)
    by (unfold roundingError in *; lra).
  clear R5 Hequ1.
  assert (Q2 : -(120 * roundingError) <= u1 / d - s <= 120 * roundingError).
  { apply (quotient_near u1 d s (120 * roundingError) (1#10));
      unfold roundingError in *; try lra.
    pose proof (small_product (d - W) s (3 * roundingError) 1).
    unfold roundingError in *. lra. }
  pose proof (rnd_absolute (u1 / d)) as R6. remember (rnd (u1 / d)) as u2.
  assert (R6'' : s - 121 * roundingError <= u2 <= s + 121 * roundingError)
    by (unfold roundingError in *; lra).
  clear R6 Hequ2 Q2.
  assert (P2 : 6 * s - 1000 * roundingError <= u2 * c6
               <= 6 * s + 1000 * roundingError).
  { pose proof (small_product (u2 - s) c6 (121 * roundingError) 7).
    pose proof (small_product (c6 - 6) s roundingError 1).
    unfold roundingError in *. lra. }
  pose proof (rnd_absolute (u2 * c6)) as R7. remember (rnd (u2 * c6)) as u3.
  assert (R7' : 6 * s - 1001 * roundingError <= u3 <= 6 * s + 1001 * roundingError)
    by (unfold roundingError in *; lra).
  clear R7 Hequ3 P2.
  pose proof (rnd_absolute (u3 - c3)) as R8.
  unfold roundingError in *. lra.
Qed.

(** C1. For a point [(x, z)] of the simulation rectangle
    [[-3, 3] x [-3, 3]], in arithmetic whose every literal and operation is
    rounded as binary64 rounds (relative error at most 2^-53, up to
    underflow),
    [denormalizeCoordinates] applied to the pair returned by
    [normalizeCoordinates(x, y, z)] gives [(x, z)] back within 10^-6. *)
Theorem normalize_round_trip (x y z : Q) :
  -3 <= x <= 3 -> -3 <= z <= 3 ->
  let normalized := normalizeCoordinates rnd x y z in
  let back := denormalizeCoordinates rnd (fst normalized) (snd normalized) in
  Qabs (fst back - x) <= 0.000001 /\ Qabs (snd back - z) <= 0.000001.
Proof.
  intros Hx Hz normalized back.
  pose proof (rnd_absolute 0.2) as A. pose proof (rnd_absolute 0.40) as B.
  pose proof (rnd_absolute 0.20) as C.
  split; apply Qabs_Qle_condition.
  - pose proof (axis_round_trip (2#10) (2#10) (lit rnd 0.2) (lit rnd 0.40) x) as H.
    unfold lit, roundingError in *.
    change (fst back)
      with (denormalizeAxis rnd (rnd 0.2) (rnd 0.40)
              (normalizeAxis rnd (rnd 0.2) (rnd 0.40) x)).
    lra.
  - pose proof (axis_round_trip (-(2#10)) (4#10) (- lit rnd 0.20) (lit rnd 0.20) z)
      as H.
    unfold lit, roundingError in *.
    change (snd back)
      with (denormalizeAxis rnd (- rnd 0.20) (rnd 0.20)
              (normalizeAxis rnd (- rnd 0.20) (rnd 0.20) z)).
    lra.
Qed.

End RoundTrip.

Lemma exact_is_rounding (q : Q) :
  Qabs q <= 10000 -> Qabs (exact q - q) <= unit_roundoff * Qabs q + underflow_unit.
Proof.
  intros _. unfold exact. setoid_replace (q - q) with 0 by ring.
  assert (0 <= Qabs q) by apply Qabs_nonneg.
  assert (0 <= underflow_unit) by (unfold Qle; vm_compute; discriminate).
  change (Qabs 0) with 0. unfold unit_roundoff. nra.
Qed.

(** In exact arithmetic the round trip gives the point back as it was. *)
Lemma normalize_round_trip_exact (x y z : Q) :
  -3 <= x <= 3 -> -3 <= z <= 3 ->
  let normalized := normalizeCoordinates exact x y z in
  let back := denormalizeCoordinates exact (fst normalized) (snd normalized) in
  fst back == x /\ snd back == z.
Proof.
  intros Hx Hz. cbn zeta.
  unfold normalizeCoordinates, denormalizeCoordinates, fadd, fsub, fmul, fdiv,
    lit, exact. cbn [fst snd].
  assert (Hnx : 0.2 + (x + 3) / 6 * (0.40 - 0.2) == (2#10) + (x + 3) * (1#30))
    by (field).
  assert (Hnz : - 0.20 + (z + 3) / 6 * (0.20 - - 0.20)
                == -(2#10) + (z + 3) * (2#30)) by (field).
  split.
  - rewrite Hnx.
    rewrite (Q.min_r 0.40) by lra. rewrite (Q.max_r 0.2) by lra. field.
  - rewrite Hnz.
    rewrite (Q.min_r 0.20) by lra. rewrite (Q.max_r (- 0.20)) by lra. field.
Qed.

Lemma normalize_round_trip_witness :
  let normalized := normalizeCoordinates exact 1.5 0.3 (-2) in
  let back := denormalizeCoordinates exact (fst normalized) (snd normalized) in
  Qabs (fst back - 1.5) <= 0.000001 /\ Qabs (snd back - (-2)) <= 0.000001.
Proof.
  apply (normalize_round_trip exact exact_is_rounding 1.5 0.3 (-2)); lra.
Defined.

(** ** Placement *)

Lemma Qlt_bool_iff (a b : Q) : Qlt_bool a b = true <-> a < b.
Proof. unfold Qlt_bool. rewrite negb_true_iff. apply Qle_bool_false. Qed.

Lemma distance_lt_iff (x z px pz bound : Q) :
  distance_lt x z px pz bound = true
  <-> 0 < bound /\ (x - px) * (x - px) + (z - pz) * (z - pz) < bound * bound.
Proof.
  unfold distance_lt. rewrite andb_true_iff, !Qlt_bool_iff.
  assert (Hsq : forall a : Q, a ^ 2 == a * a) by (intros a; cbn; ring).
  now rewrite !Hsq.
Qed.

(** [distance_lt] is the comparison the source writes: the square root of
    the sum of the squares, as a real number, is below the bound. *)
Lemma distance_lt_sqrt (x z px pz bound : Q) :
  distance_lt x z px pz bound = true
  <-> Rdefinitions.Rlt
        (R_sqrt.sqrt (Rdefinitions.Q2R ((x - px) ^ 2 + (z - pz) ^ 2)))
        (Rdefinitions.Q2R bound).
Proof.
  assert (Hsq : forall a : Q, a ^ 2 == a * a) by (intros a; cbn; ring).
  assert (Hs : 0 <= (x - px) ^ 2 + (z - pz) ^ 2)
    by (rewrite !Hsq; generalize (x - px) (z - pz); intros a b; nra).
  assert (Hs' : Rdefinitions.Rle (Rdefinitions.IZR 0)
                  (Rdefinitions.Q2R ((x - px) ^ 2 + (z - pz) ^ 2))).
  { rewrite <- RMicromega.Q2R_0. now apply Qreals.Qle_Rle. }
  unfold distance_lt. rewrite andb_true_iff, !Qlt_bool_iff. split.
  - intros [Hb Hlt].
    assert (Hb' : Rdefinitions.Rlt (Rdefinitions.IZR 0) (Rdefinitions.Q2R bound)).
    { rewrite <- RMicromega.Q2R_0. now apply Qreals.Qlt_Rlt. }
    rewrite <- (R_sqrt.sqrt_square (Rdefinitions.Q2R bound))
      by now apply RIneq.Rlt_le.
    apply R_sqrt.sqrt_lt_1_alt. split; [exact Hs'|].
    rewrite <- Qreals.Q2R_mult. now apply Qreals.Qlt_Rlt.
  - intros H.
    assert (Hb' : Rdefinitions.Rlt (Rdefinitions.IZR 0) (Rdefinitions.Q2R bound)).
    { eapply RIneq.Rle_lt_trans; [apply R_sqrt.sqrt_pos | exact H]. }
    split.
    + apply Qreals.Rlt_Qlt. now rewrite RMicromega.Q2R_0.
    + apply Qreals.Rlt_Qlt. rewrite Qreals.Q2R_mult.
      rewrite <- (R_sqrt.sqrt_sqrt (Rdefinitions.Q2R ((x - px) ^ 2 + (z - pz) ^ 2)))
        by exact Hs'.
      apply RIneq.Rmult_le_0_lt_compat; try apply R_sqrt.sqrt_pos; exact H.
Qed.

(** X22. A position that [isPositionValid] accepts for a radius that is
    not negative is at least the sum of the radii away from the
    end-effector (at the origin, radius 0.45) and from every occupied
    position: the clearance disks do not overlap. *)
Lemma isPositionValid_clear (occupiedPositions : list Occupied) (x z radius : Q) :
  0 <= radius ->
  isPositionValid occupiedPositions x z radius = true ->
  clearanceKept x z 0 0 radius 0.45 = true
  /\ forall pos, In pos occupiedPositions -> 0 <= occ_radius pos ->
       clearanceKept x z (occ_x pos) (occ_z pos) radius (occ_radius pos) = true.
Proof.
  intros Hr. unfold isPositionValid, clearanceKept.
  destruct (distance_lt x z 0 0 (0.45 + radius + 0.5)) eqn:Harm; [discriminate|].
  rewrite forallb_forall. intros Hall. split.
  - apply negb_true_iff.
    destruct (distance_lt x z 0 0 (radius + 0.45)) eqn:E; [|reflexivity].
    apply distance_lt_iff in E as [E1 E2].
    assert (distance_lt x z 0 0 (0.45 + radius + 0.5) = true)
      by (apply distance_lt_iff; split; nra).
    congruence.
  - intros pos Hin Hpos. specialize (Hall pos Hin).
    apply negb_true_iff in Hall. apply negb_true_iff.
    destruct (distance_lt x z (occ_x pos) (occ_z pos) (radius + occ_radius pos))
      eqn:E; [|reflexivity].
    apply distance_lt_iff in E as [E1 E2].
    assert (distance_lt x z (occ_x pos) (occ_z pos)
              (radius * 4 + occ_radius pos * 2) = true)
      by (apply distance_lt_iff; split; nra).
    congruence.
Qed.

(** Next to an object of the play area no candidate of the sampling loop
    is valid: [isPositionValid] asks for a distance of 5.4, and the square
    the candidates come from has a diagonal below 5. *)
Lemma isPositionValid_crowded (occupiedPositions : list Occupied)
    (pos : Occupied) (x z : Q) :
  In pos occupiedPositions ->
  occ_radius pos == objectRadius ->
  inSquare (occ_x pos) (occ_z pos) ->
  inSquare x z ->
  isPositionValid occupiedPositions x z objectRadius = false.
Proof.
  intros Hin Hrad [Hpx Hpz] [Hx Hz]. unfold isPositionValid.
  destruct (distance_lt x z 0 0 (0.45 + objectRadius + 0.5)); [reflexivity|].
  apply not_true_is_false. rewrite forallb_forall. intros Hall.
  specialize (Hall pos Hin). apply negb_true_iff in Hall.
  assert (distance_lt x z (occ_x pos) (occ_z pos)
            (objectRadius * 4 + occ_radius pos * 2) = true).
  { apply distance_lt_iff. rewrite Hrad. unfold objectRadius, size. split; [lra|].
    nra. }
  congruence.
Qed.

Section Sampling.

Variable random : nat -> Q.

(** [Math.random()] gives numbers from 0 (included) to 1 (excluded). *)
Hypothesis random_range : forall k, 0 <= random k < 1.

Lemma candidate_inSquare (calls : nat) :
  inSquare ((random calls - 0.5) * 3.5) ((random (S calls) - 0.5) * 3.5).
Proof.
  pose proof (random_range calls). pose proof (random_range (S calls)).
  unfold inSquare. lra.
Qed.

(** The sampling loop ends within [maxAttempts] turns, on a candidate of
    the square; if it ends before [maxAttempts] the candidate is valid. *)
Lemma sampleLoop_total (occupiedPositions : list Occupied)
    (fuel calls attempts : nat) :
  (attempts + fuel = maxAttempts)%nat -> (0 < fuel)%nat ->
  exists x z attempts' calls',
    sampleLoop fuel random occupiedPositions calls attempts
    = Some (x, z, attempts', calls')
    /\ (attempts' <= maxAttempts)%nat
    /\ inSquare x z
    /\ ((attempts' < maxAttempts)%nat ->
        isPositionValid occupiedPositions x z objectRadius = true).
Proof.
  revert calls attempts. induction fuel as [|fuel IH]; intros calls attempts Hsum Hpos;
    [lia|].
  cbn [sampleLoop].
  destruct (isPositionValid occupiedPositions _ _ objectRadius) eqn:Hvalid;
    cbn [negb andb].
  - eexists _, _, _, _. split; [reflexivity|].
    split; [lia|]. split; [apply candidate_inSquare | intros _; exact Hvalid].
  - destruct (Nat.ltb_spec (S attempts) maxAttempts) as [Hlt|Hge].
    + apply IH; lia.
    + eexists _, _, _, _. split; [reflexivity|].
      split; [lia|]. split; [apply candidate_inSquare | lia].
Qed.

(** With an object of the play area already placed the loop uses up its
    attempts. *)
Lemma sampleLoop_exhausted (occupiedPositions : list Occupied) (pos : Occupied)
    (fuel calls attempts : nat) :
  In pos occupiedPositions ->
  occ_radius pos == objectRadius ->
  inSquare (occ_x pos) (occ_z pos) ->
  (attempts + fuel = maxAttempts)%nat -> (0 < fuel)%nat ->
  exists x z calls',
    sampleLoop fuel random occupiedPositions calls attempts
    = Some (x, z, maxAttempts, calls').
Proof.
  intros Hin Hrad Hpos. revert calls attempts.
  induction fuel as [|fuel IH]; intros calls attempts Hsum Hfuel; [lia|].
  cbn [sampleLoop].
  rewrite (isPositionValid_crowded occupiedPositions pos _ _ Hin Hrad Hpos
             (candidate_inSquare calls)).
  cbn [negb andb].
  destruct (Nat.ltb_spec (S attempts) maxAttempts) as [Hlt|Hge].
  - apply IH; lia.
  - replace (S attempts) with maxAttempts by lia. eauto.
Qed.

(** The first object lands in the play area, by sampling or on the grid. *)
Lemma placeOne_first (calls : nat) :
  exists x z calls',
    placeOne random [] calls = Some (x, z, calls') /\ inSquare x z.
Proof.
  unfold placeOne.
  destruct (sampleLoop_total [] maxAttempts calls 0 eq_refl)
    as (x & z & attempts & calls' & -> & _ & Hsq & _); [unfold maxAttempts; lia|].
  destruct (maxAttempts <=? attempts)%nat.
  - eexists _, _, _. split; [reflexivity|].
    unfold inSquare, Qle. vm_compute. repeat split; discriminate.
  - eexists _, _, _. split; [reflexivity | exact Hsq].
Qed.

(** Every later object lands on the grid. *)
Lemma placeOne_crowded (occupiedPositions : list Occupied) (pos : Occupied)
    (calls : nat) :
  In pos occupiedPositions ->
  occ_radius pos == objectRadius ->
  inSquare (occ_x pos) (occ_z pos) ->
  exists calls',
    placeOne random occupiedPositions calls
    = Some (fst (gridFallback occupiedPositions),
            snd (gridFallback occupiedPositions), calls').
Proof.
  intros Hin Hrad Hpos. unfold placeOne.
  destruct (sampleLoop_exhausted occupiedPositions pos maxAttempts calls 0
              Hin Hrad Hpos eq_refl) as (x & z & calls' & ->);
    [unfold maxAttempts; lia|].
  rewrite Nat.leb_refl. eauto.
Qed.

(** C5 fails on every run. Whatever [Math.random()] gives, placement ends
    with three objects, the second at [(0, -1.2)] and the third at
    [(-1.2, 0)], both from the grid fallback: the second is 1.2 from the
    end-effector, less than the radii 0.45 + 0.9, and the two are less
    than 0.9 + 0.9 apart, so the clearance disks overlap. *)
Theorem placement_overlaps :
  exists first second third,
    placeObjects numObjects random [] 0 = Some [first; second; third]
    /\ inSquare (occ_x first) (occ_z first)
    /\ (occ_x second == 0 /\ occ_z second == -(1.2))
    /\ (occ_x third == -(1.2) /\ occ_z third == 0)
    /\ occ_radius second = objectRadius /\ occ_radius third = objectRadius
    /\ clearanceKept (occ_x second) (occ_z second) 0 0 (occ_radius second) 0.45
       = false
    /\ clearanceKept (occ_x second) (occ_z second) (occ_x third) (occ_z third)
         (occ_radius second) (occ_radius third) = false
    /\ placementClear [first; second; third] = false.
Proof.
  unfold numObjects. cbn [placeObjects].
  destruct (placeOne_first 0) as (x1 & z1 & calls1 & -> & Hsq1).
  cbn [app].
  set (first := mkOccupied x1 z1 objectRadius).
  destruct (placeOne_crowded [first] first calls1 (or_introl eq_refl)
              (Qeq_refl _) Hsq1) as (calls2 & ->).
  cbn [app].
  set (second := mkOccupied (fst (gridFallback [first])) (snd (gridFallback [first]))
                            objectRadius).
  destruct (placeOne_crowded [first; second] first calls2 (or_introl eq_refl)
              (Qeq_refl _) Hsq1) as (calls3 & ->).
  cbn [app].
  set (third := mkOccupied (fst (gridFallback [first; second]))
                           (snd (gridFallback [first; second])) objectRadius).
  assert (Harm : clearanceKept (occ_x second) (occ_z second) 0 0
                   (occ_radius second) 0.45 = false) by reflexivity.
  assert (Hpair : clearanceKept (occ_x second) (occ_z second)
                    (occ_x third) (occ_z third)
                    (occ_radius second) (occ_radius third) = false) by reflexivity.
  exists first, second, third.
  split; [reflexivity|]. split; [exact Hsq1|].
  split; [split; reflexivity|]. split; [split; reflexivity|].
  split; [reflexivity|]. split; [reflexivity|].
  split; [exact Harm|]. split; [exact Hpair|].
  cbn [placementClear forallb]. rewrite Harm, !andb_false_r. reflexivity.
Qed.

End Sampling.

Lemma placement_overlaps_witness :
  exists first second third,
    placeObjects numObjects (fun _ => 0.9) [] 0 = Some [first; second; third]
    /\ placementClear [first; second; third] = false.
Proof.
  destruct (placement_overlaps (fun _ => 0.9)) as (a & b & c & H & H').
  - intros _. lra.
  - exists a, b, c. split; [exact H | apply H'].
Defined.

(** ** Further properties and sample evaluations *)

(** Whatever the point, the normalized pair lies in the physical rectangle. *)
Lemma normalize_clamped (x y z : Q) :
  let normalized := normalizeCoordinates exact x y z in
  0.2 <= fst normalized <= 0.40 /\ -(0.20) <= snd normalized <= 0.20.
Proof.
  cbn zeta. unfold normalizeCoordinates, lit, exact. cbn [fst snd].
  split; split;
    try (apply Q.le_max_l);
    apply Q.max_lub; try lra; apply Q.le_min_l.
Qed.

(** [stopRecording] leaves "has recording" true exactly when the buffer
    holds a frame, and clears both recording flags. *)
Lemma stopRecording_hasRecording (st : State) :
  (hasRecording (stopRecording st) = true <-> recordingDataRef st <> [])
  /\ isRecording (stopRecording st) = false
  /\ isRecordingRef (stopRecording st) = false
  /\ recordingDataRef (stopRecording st) = recordingDataRef st.
Proof.
  unfold stopRecording. cbn. destruct (recordingDataRef st); cbn.
  - repeat split; try discriminate. congruence.
  - repeat split; discriminate.
Qed.

(** The corners and the centre of the table, and a point outside it. *)
Example normalize_corners :
  fst (normalizeCoordinates exact (-3) 0.3 (-3)) == 0.2
  /\ snd (normalizeCoordinates exact (-3) 0.3 (-3)) == -(0.20)
  /\ fst (normalizeCoordinates exact 3 0.3 3) == 0.40
  /\ snd (normalizeCoordinates exact 3 0.3 3) == 0.20
  /\ fst (normalizeCoordinates exact 0 0.3 0) == 0.3
  /\ snd (normalizeCoordinates exact 0 0.3 0) == 0
  /\ fst (normalizeCoordinates exact 5 0.3 (-7)) == 0.40
  /\ snd (normalizeCoordinates exact 5 0.3 (-7)) == -(0.20).
Proof. repeat split; vm_compute; reflexivity. Qed.

Example toFixed_samples :
  toFixed (fun _ => EmptyString) 3 0 = "0.000"%string
  /\ toFixed (fun _ => EmptyString) 3 900 = "900.000"%string
  /\ toFixed (fun _ => EmptyString) 6 0.76 = "0.760000"%string
  /\ toFixed (fun _ => EmptyString) 6 (-(0.20)) = "-0.200000"%string
  /\ toFixed (fun _ => EmptyString) 6 (1 # 3) = "0.333333"%string
  /\ toFixed (fun _ => EmptyString) 6 (2 # 3) = "0.666667"%string
  /\ toFixed (fun _ => EmptyString) 3 (12345 # 10000) = "1.235"%string.
Proof. repeat split; vm_compute; reflexivity. Qed.

(** One second of recording at 10 Hz: ten frames, stamped 0 to 900. *)
Example ten_frames :
  map (fun frame => Qred (timestamp frame))
      (recordingDataRef
         (run restingStep
              ([EvInitPhysics (fun _ => 0.9); EvStartRecording 0]
               ++ repeat (EvInterval 1) 10 ++ [EvStopRecording])
              initialState))
  = [0; 100; 200; 300; 400; 500; 600; 700; 800; 900].
Proof. vm_compute. reflexivity. Qed.

(** The placement of a run in which [Math.random()] gives 0.9 throughout. *)
Example placement_sample :
  option_map (map (fun pos => (Qred (occ_x pos), Qred (occ_z pos))))
             (placeObjects numObjects (fun _ => 0.9) [] 0)
  = Some [(7 # 5, 7 # 5); (0, -6 # 5); (-6 # 5, 0)].
Proof. vm_compute. reflexivity. Qed.

(** ** Coordinate normalizer: range and inverse *)

(** X1. Whatever the arithmetic and the point, the normalized pair lies
    between the bounds of the physical rectangle as the arithmetic has them,
    as soon as these are in order. *)
Lemma normalize_in_rectangle (rnd : Q -> Q) (x y z : Q) :
  rnd 0.2 <= rnd 0.40 -> 0 <= rnd 0.20 ->
  let normalized := normalizeCoordinates rnd x y z in
  rnd 0.2 <= fst normalized <= rnd 0.40
  /\ - rnd 0.20 <= snd normalized <= rnd 0.20.
Proof.
  intros Hx Hy. cbn zeta. unfold normalizeCoordinates, lit. cbn [fst snd].
  split; split;
    try (apply Q.le_max_l);
    apply Q.max_lub; try lra; apply Q.le_min_l.
Qed.

Lemma normalize_in_rectangle_witness :
  let normalized := normalizeCoordinates exact 5 0.3 (-7) in
  0.2 <= fst normalized <= 0.40 /\ - (0.20) <= snd normalized <= 0.20.
Proof.
  apply (normalize_in_rectangle exact 5 0.3 (-7)); unfold exact; lra.
Defined.

Lemma clampToTable_cases (v : Q) :
  (v < -3 /\ clampToTable v == -3)
  \/ (-3 <= v <= 3 /\ clampToTable v == v)
  \/ (3 < v /\ clampToTable v == 3).
Proof.
  unfold clampToTable.
  destruct (Qlt_le_dec v (-3)) as [H|H]; [left|right].
  - split; [exact H|]. rewrite (Q.min_r 3) by lra. apply Q.max_l. lra.
  - destruct (Qlt_le_dec 3 v) as [H'|H']; [right|left].
    + split; [exact H'|]. rewrite (Q.min_l 3) by lra. apply Q.max_r. lra.
    + split; [lra|]. rewrite (Q.min_r 3) by lra. apply Q.max_r. lra.
Qed.

(** In exact arithmetic, normalizing and denormalizing gives back the point
    brought to the table. *)
Lemma exact_round_trip (x y z : Q) :
  let normalized := normalizeCoordinates exact x y z in
  let back := denormalizeCoordinates exact (fst normalized) (snd normalized) in
  fst back == clampToTable x /\ snd back == clampToTable z.
Proof.
  cbn zeta.
  unfold normalizeCoordinates, denormalizeCoordinates, fadd, fsub, fmul, fdiv,
    lit, exact. cbn [fst snd].
  assert (Hnx : 0.2 + (x + 3) / 6 * (0.40 - 0.2) == (2#10) + (x + 3) * (1#30))
    by (field).
  assert (Hnz : - 0.20 + (z + 3) / 6 * (0.20 - - 0.20)
                == -(2#10) + (z + 3) * (2#30)) by (field).
  split.
  - rewrite Hnx.
    destruct (clampToTable_cases x) as [[H ->] | [[H ->] | [H ->]]].
    + rewrite (Q.min_r 0.40) by lra. rewrite (Q.max_l 0.2) by lra. field.
    + rewrite (Q.min_r 0.40) by lra. rewrite (Q.max_r 0.2) by lra. field.
    + rewrite (Q.min_l 0.40) by lra. rewrite (Q.max_r 0.2) by lra. field.
  - rewrite Hnz.
    destruct (clampToTable_cases z) as [[H ->] | [[H ->] | [H ->]]].
    + rewrite (Q.min_r 0.20) by lra. rewrite (Q.max_l (- 0.20)) by lra. field.
    + rewrite (Q.min_r 0.20) by lra. rewrite (Q.max_r (- 0.20)) by lra. field.
    + rewrite (Q.min_l 0.20) by lra. rewrite (Q.max_r (- 0.20)) by lra. field.
Qed.

(** X2. On the physical rectangle the normalizer undoes the denormalizer, in
    exact arithmetic: together with the round trip on the table, the two
    maps are inverse bijections between table and rectangle. *)
Lemma normalize_denormalize (nx ny y : Q) :
  0.2 <= nx <= 0.40 -> -(0.20) <= ny <= 0.20 ->
  let three := denormalizeCoordinates exact nx ny in
  let normalized := normalizeCoordinates exact (fst three) y (snd three) in
  fst normalized == nx /\ snd normalized == ny
  /\ -3 <= fst three <= 3 /\ -3 <= snd three <= 3.
Proof.
  intros Hx Hy. cbn zeta.
  unfold normalizeCoordinates, denormalizeCoordinates, fadd, fsub, fmul, fdiv,
    lit, exact. cbn [fst snd].
  assert (Hx3 : (nx - 0.2) / (0.40 - 0.2) * 6 - 3 == (nx - (2#10)) * 30 - 3)
    by field.
  assert (Hz3 : (ny - - 0.20) / (0.20 - - 0.20) * 6 - 3 == (ny + (2#10)) * 15 - 3)
    by field.
  assert (Hnx : 0.2 + ((nx - 0.2) / (0.40 - 0.2) * 6 - 3 + 3) / 6 * (0.40 - 0.2)
                == nx) by field.
  assert (Hny : - 0.20 + ((ny - - 0.20) / (0.20 - - 0.20) * 6 - 3 + 3) / 6
                         * (0.20 - - 0.20) == ny) by field.
  rewrite Hnx, Hny, Hx3, Hz3.
  split; [rewrite (Q.min_r 0.40) by lra; apply Q.max_r; lra|].
  split; [rewrite (Q.min_r 0.20) by lra; apply Q.max_r; lra|].
  split; lra.
Qed.

Lemma normalize_denormalize_witness :
  let three := denormalizeCoordinates exact 0.25 (-(0.1)) in
  let normalized := normalizeCoordinates exact (fst three) 0.3 (snd three) in
  fst normalized == 0.25 /\ snd normalized == -(0.1).
Proof.
  destruct (normalize_denormalize 0.25 (-(0.1)) 0.3) as (H1 & H2 & _);
    [lra | lra |].
  split; [exact H1 | exact H2].
Defined.

(** ** The scene and the buffer in reachable states *)

Lemma length_setBodies (poses : list (Vector3 * Quaternion)) (objs : list SceneObject) :
  List.length (setBodies poses objs) = List.length objs.
Proof.
  revert objs. induction poses as [|[t r] poses IH]; intros [|obj objs]; cbn;
    try reflexivity.
  now rewrite IH.
Qed.

Lemma length_imposeObjects (states : list ObjectState) (objs : list SceneObject) :
  List.length (imposeObjects states objs) = List.length objs.
Proof.
  revert objs. induction states as [|s states IH]; intros [|obj objs]; cbn;
    try reflexivity.
  now rewrite IH.
Qed.

(** The frame [recordFixedFrame] appends. *)
Lemma recordFixedFrame_frame (st : State) (arm : RobotArm) :
  robotArmRef st = Some arm ->
  exists frame,
    recordingDataRef (recordFixedFrame st) = recordingDataRef st ++ [frame]
    /\ inRectangle (robotArm frame)
    /\ Forall (fun obj => inRectangle (os_position obj)) (objects frame)
    /\ List.length (objects frame) = List.length (objectsRef st)
    /\ robotArmRef (recordFixedFrame st) = robotArmRef st
    /\ objectsRef (recordFixedFrame st) = objectsRef st
    /\ isRecordingRef (recordFixedFrame st) = isRecordingRef st
    /\ intervals (recordFixedFrame st) = intervals st
    /\ frameCountRef (recordFixedFrame st) = S (frameCountRef st).
Proof.
  intros Harm. unfold recordFixedFrame. rewrite Harm. cbn zeta.
  eexists. split; [reflexivity|]. cbn.
  split; [|split; [|split]].
  - destruct (normalize_clamped (v_x (position arm)) (v_y (position arm))
                (v_z (position arm))) as [H1 H2].
    unfold inRectangle. cbn. auto.
  - apply Forall_map, Forall_forall. intros obj _.
    destruct (normalize_clamped (v_x (mesh_position obj)) (v_y (mesh_position obj))
                (v_z (mesh_position obj))) as [H1 H2].
    unfold inRectangle. cbn. auto.
  - apply length_map.
  - auto.
Qed.

Section Scene.

Variable rapierStep :
  option Vector3 -> list (Vector3 * Quaternion) -> list (Vector3 * Quaternion).

(** The buffer after an event: as it was, emptied by [startRecording], or
    longer by the frame of a live timer's tick. *)
Lemma buffer_step (st : State) (e : Event) :
  recordingDataRef (handleEvent rapierStep st e) = recordingDataRef st
  \/ (isStartRecording e = true /\ recordingDataRef (handleEvent rapierStep st e) = [])
  \/ (exists handle arm,
        e = EvInterval handle /\ existsb (Nat.eqb handle) (intervals st) = true
        /\ isRecordingRef st = true /\ robotArmRef st = Some arm
        /\ handleEvent rapierStep st e = recordFixedFrame st).
Proof.
  destruct e; cbn.
  - left. unfold initPhysics. destruct (negb (isMounted st)); [reflexivity|].
    now destruct (placeObjects _ _ _ _).
  - unfold startRecording. destruct (isReplaying st); [now left|]. right; left. auto.
  - now left.
  - left. unfold startReplay. now destruct (negb (hasRecording st) || isRecording st).
  - now left.
  - destruct (existsb _ _) eqn:Hlive; [|now left].
    unfold intervalCallback. destruct (isRecordingRef st) eqn:Hrec; [|now left].
    destruct (robotArmRef st) as [arm|] eqn:Harm.
    + right; right. exists handle, arm. auto.
    + left. unfold recordFixedFrame. now rewrite Harm.
  - left. apply (animate_cells rapierStep currentTime replayNow st).
  - left. unfold onPointer. now destruct (robotArmRef st).
Qed.

(** The arm and the objects after an animation frame. *)
Lemma animate_scene (currentTime replayNow : Q) (st : State) :
  let st' := fst (animate rapierStep currentTime replayNow st) in
  (objectsRef st' = objectsRef st /\ robotArmRef st' = robotArmRef st)
  \/ (exists objs,
        List.length objs = List.length (objectsRef st)
        /\ objectsRef st'
           = map (fun obj =>
                    {| mesh_position := body_translation obj;
                       mesh_quaternion := body_rotation obj;
                       body_translation := body_translation obj;
                       body_rotation := body_rotation obj |}) objs
        /\ robotArmRef st' = robotArmRef st)
  \/ (exists frame arm,
        robotArmRef st = Some arm
        /\ objectsRef st' = imposeObjects (objects frame) (objectsRef st)
        /\ robotArmRef st'
           = Some (setPosition
                     (mkVector3
                        (fst (denormalizeCoordinates exact (v_x (robotArm frame))
                                (v_y (robotArm frame))))
                        ROBOT_ARM_Y
                        (snd (denormalizeCoordinates exact (v_x (robotArm frame))
                                (v_y (robotArm frame))))) arm)).
Proof.
  unfold animate. destruct (isMounted st); cbn; [|now left].
  destruct (worldRef st && negb (isReplayingRef st)) eqn:Hw; cbn.
  - apply andb_prop in Hw as [_ Hw]. apply negb_true_iff in Hw. rewrite Hw. cbn.
    right; left. eexists. split; [|split; [reflexivity|reflexivity]].
    apply length_setBodies.
  - destruct (isReplayingRef st) eqn:Hr; cbn.
    + destruct (replayFrame_cases replayNow (withScene currentTime (objectsRef st) st))
        as [H | [(frame & arm & _ & Harm & _ & H) | [_ H]]]; rewrite H; cbn.
      * now left.
      * right; right. exists frame, arm. auto.
      * now left.
    + right; left. exists (objectsRef st). auto.
Qed.

Lemma length_placeObjects (random : nat -> Q) (n : nat) (occupiedPositions : list Occupied)
    (calls : nat) (placed : list Occupied) :
  placeObjects n random occupiedPositions calls = Some placed ->
  List.length placed = (List.length occupiedPositions + n)%nat.
Proof.
  revert occupiedPositions calls. induction n as [|n IH]; intros occ calls; cbn.
  - intros [= ->]. lia.
  - destruct (placeOne random occ calls) as [[[x z] calls']|]; [|discriminate].
    intros H. apply IH in H. rewrite H, length_app. cbn. lia.
Qed.

(** Before the scene exists there are no objects; once it exists it holds
    [numObjects] objects, and so does every recorded frame. *)
Lemma scene_counts (st : State) :
  reachable rapierStep st ->
  (robotArmRef st <> None -> List.length (objectsRef st) = numObjects)
  /\ (robotArmRef st = None -> objectsRef st = [])
  /\ Forall (fun frame => List.length (objects frame) = numObjects)
            (recordingDataRef st).
Proof.
  intros Hreach. pattern st. revert st Hreach.
  apply reachable_ind'; [split; [cbn; congruence | split; [reflexivity | constructor]]|].
  intros st' e _ (Hobjs & Hnone & Hframes). split; [|split].
  - destruct e; cbn.
    + unfold initPhysics. destruct (negb (isMounted st')); [exact Hobjs|].
      destruct (placeObjects _ _ _ _) as [placed|] eqn:Hp; [|exact Hobjs].
      cbn. intros _. rewrite length_map. now apply length_placeObjects in Hp.
    + unfold startRecording. now destruct (isReplaying st').
    + exact Hobjs.
    + unfold startReplay. now destruct (negb (hasRecording st') || isRecording st').
    + exact Hobjs.
    + destruct (existsb _ _); [|exact Hobjs].
      unfold intervalCallback. destruct (isRecordingRef st'); [|exact Hobjs].
      destruct (robotArmRef st') as [arm|] eqn:Harm.
      * destruct (recordFixedFrame_frame st' arm Harm)
          as (_ & _ & _ & _ & _ & -> & -> & _). now rewrite Harm.
      * unfold recordFixedFrame. now rewrite Harm.
    + destruct (animate_scene currentTime replayNow st')
        as [[-> ->] | [(objs & Hlen & -> & ->) | (frame & arm & Harm & -> & ->)]].
      * exact Hobjs.
      * intros H. rewrite length_map, Hlen. auto.
      * intros _. rewrite length_imposeObjects. apply Hobjs. congruence.
    + unfold onPointer. destruct (robotArmRef st') eqn:Harm; [|now rewrite Harm].
      cbn. intros _. apply Hobjs. discriminate.
  - destruct e; cbn.
    + unfold initPhysics. destruct (negb (isMounted st')); [exact Hnone|].
      destruct (placeObjects _ _ _ _); [discriminate | exact Hnone].
    + unfold startRecording. now destruct (isReplaying st').
    + exact Hnone.
    + unfold startReplay. now destruct (negb (hasRecording st') || isRecording st').
    + exact Hnone.
    + destruct (existsb _ _); [|exact Hnone].
      unfold intervalCallback. destruct (isRecordingRef st'); [|exact Hnone].
      unfold recordFixedFrame.
      destruct (robotArmRef st') eqn:Harm; [discriminate | now rewrite Harm].
    + destruct (animate_scene currentTime replayNow st')
        as [[-> ->] | [(objs & Hlen & -> & ->) | (frame & arm & Harm & -> & ->)]].
      * exact Hnone.
      * intros H. specialize (Hnone H). rewrite Hnone in Hlen. now destruct objs.
      * discriminate.
    + unfold onPointer. destruct (robotArmRef st') eqn:Harm; [discriminate|].
      now rewrite Harm.
  - destruct (buffer_step st' e) as [-> | [[_ ->] | (h & arm & _ & _ & _ & Harm & ->)]].
    + exact Hframes.
    + constructor.
    + destruct (recordFixedFrame_frame st' arm Harm) as (frame & -> & _ & _ & Hlen & _).
      apply Forall_app. split; [exact Hframes|]. constructor; [|constructor].
      rewrite Hlen. apply Hobjs. congruence.
Qed.

(** The interval timers are none of the animation loop's business. *)
Lemma animate_timers (currentTime replayNow : Q) (st : State) :
  let st' := fst (animate rapierStep currentTime replayNow st) in
  intervals st' = intervals st
  /\ nextInterval st' = nextInterval st
  /\ recordingIntervalRef st' = recordingIntervalRef st.
Proof.
  unfold animate. destruct (isMounted st); cbn; [|auto].
  destruct (worldRef st && negb (isReplayingRef st)) eqn:Hw; cbn.
  - apply andb_prop in Hw as [_ Hw]. apply negb_true_iff in Hw. rewrite Hw. cbn. auto.
  - destruct (isReplayingRef st) eqn:Hr; cbn; [|auto].
    destruct (replayFrame_cases replayNow (withScene currentTime (objectsRef st) st))
      as [H | [(frame & arm & _ & _ & _ & H) | [_ H]]]; rewrite H; cbn; auto.
Qed.

(** X3. Every frame of the buffer, in every state the component can reach,
    holds positions of the physical rectangle [0.2, 0.40] x [-0.20, 0.20] at
    height 0.76: for the end-effector and for every object, wherever they
    were in the scene. *)
Theorem recorded_positions_in_rectangle (st : State) (frame : Frame) :
  reachable rapierStep st ->
  In frame (recordingDataRef st) ->
  inRectangle (robotArm frame)
  /\ forall obj, In obj (objects frame) -> inRectangle (os_position obj).
Proof.
  intros Hreach. revert frame. pattern st. revert st Hreach.
  apply reachable_ind'; [intros frame []|].
  intros st e _ IH frame.
  destruct (buffer_step st e) as [-> | [[_ ->] | (h & arm & _ & _ & _ & Harm & ->)]].
  - apply IH.
  - intros [].
  - destruct (recordFixedFrame_frame st arm Harm) as (new & -> & Hrobot & Hobjs & _).
    rewrite in_app_iff. intros [Hin | [<- | []]]; [now apply IH|].
    split; [exact Hrobot|]. now apply Forall_forall.
Qed.

(** X4. In every reachable state each recorded frame holds the states of
    exactly [numObjects] objects, the scene holds that many objects once the
    arm exists, and neither physics nor replay changes their number. *)
Theorem frames_hold_every_object (st : State) :
  reachable rapierStep st ->
  (forall frame, In frame (recordingDataRef st) ->
                 List.length (objects frame) = numObjects)
  /\ (robotArmRef st <> None -> List.length (objectsRef st) = numObjects)
  /\ (robotArmRef st = None -> objectsRef st = [] /\ recordingDataRef st = []).
Proof.
  intros Hreach. destruct (scene_counts st Hreach) as (Hobjs & Hnone & Hframes).
  split; [now apply Forall_forall|]. split; [exact Hobjs|].
  intros Harm. split; [now apply Hnone|].
  destruct (recordingDataRef st) eqn:Hdata; [reflexivity|].
  destruct (reachable_invariant rapierStep st Hreach)
    as [Ireplaying Irecording Icount Istamps Ihas Iplaying Iarm Imounted].
  destruct Iarm; [rewrite Hdata; discriminate | exact Harm].
Qed.

(** X6. In every reachable state recording and replay are not both active,
    each React flag has the value of its ref, and while replay is active the
    buffer holds a frame: the component is idle, recording or playing,
    whatever the order in which its handlers are called. *)
Theorem never_recording_and_replaying (st : State) :
  reachable rapierStep st ->
  isRecording st && isReplaying st = false
  /\ isRecordingRef st = isRecording st
  /\ isReplayingRef st = isReplaying st
  /\ (isReplaying st = true -> recordingDataRef st <> [])
  /\ (hasRecording st = true -> isRecording st = false -> recordingDataRef st <> []).
Proof.
  intros Hreach. destruct (reachable_invariant rapierStep st Hreach)
    as [Ireplaying Irecording Icount Istamps Ihas Iplaying Iarm Imounted].
  split; [|split; [auto | split; [auto | split; [apply Iplaying | exact Ihas]]]].
  destruct (isReplaying st) eqn:Hr; [|apply andb_false_r].
  destruct (Iplaying eq_refl) as [_ ->]. reflexivity.
Qed.

(** The recording flag, the timers and the arm after an event. *)
Lemma recording_ref_step (st : State) (e : Event) :
  isRecordingRef (handleEvent rapierStep st e)
  = match e with
    | EvStartRecording _ => if isReplaying st then isRecordingRef st else true
    | EvStopRecording => false
    | _ => isRecordingRef st
    end.
Proof.
  destruct e; cbn; try reflexivity.
  - unfold initPhysics. destruct (negb (isMounted st)); [reflexivity|].
    now destruct (placeObjects _ _ _ _).
  - unfold startRecording. now destruct (isReplaying st).
  - unfold startReplay. now destruct (negb (hasRecording st) || isRecording st).
  - destruct (existsb _ _); [|reflexivity].
    unfold intervalCallback. destruct (isRecordingRef st) eqn:Hrec; [|exact Hrec].
    unfold recordFixedFrame. now destruct (robotArmRef st).
  - apply (animate_cells rapierStep currentTime replayNow st).
  - unfold onPointer. now destruct (robotArmRef st).
Qed.

Lemma intervals_step (st : State) (e : Event) :
  isStartRecording e = false -> isStopRecording e = false ->
  intervals (handleEvent rapierStep st e) = intervals st
  /\ recordingIntervalRef (handleEvent rapierStep st e) = recordingIntervalRef st
  /\ nextInterval (handleEvent rapierStep st e) = nextInterval st.
Proof.
  destruct e; cbn; try discriminate; intros _ _; auto.
  - unfold initPhysics. destruct (negb (isMounted st)); [auto|].
    now destruct (placeObjects _ _ _ _).
  - unfold startReplay. now destruct (negb (hasRecording st) || isRecording st).
  - destruct (existsb _ _); [|auto].
    unfold intervalCallback. destruct (isRecordingRef st); [|auto].
    unfold recordFixedFrame. now destruct (robotArmRef st).
  - destruct (animate_timers currentTime replayNow st) as (H1 & H2 & H3). auto.
  - unfold onPointer. now destruct (robotArmRef st).
Qed.

Lemma arm_step (st : State) (e : Event) :
  robotArmRef st <> None -> robotArmRef (handleEvent rapierStep st e) <> None.
Proof.
  intros Harm. destruct e; cbn; auto.
  - unfold initPhysics. destruct (negb (isMounted st)); [auto|].
    destruct (placeObjects _ _ _ _); [discriminate | auto].
  - unfold startRecording. now destruct (isReplaying st).
  - unfold startReplay. now destruct (negb (hasRecording st) || isRecording st).
  - destruct (existsb _ _); [|auto].
    unfold intervalCallback. destruct (isRecordingRef st); [|auto].
    unfold recordFixedFrame. destruct (robotArmRef st); [discriminate | auto].
  - now apply (animate_cells rapierStep currentTime replayNow st).
  - unfold onPointer. destruct (robotArmRef st); [discriminate | auto].
Qed.

(** X7. From a state in which recording is off, no run without a
    [startRecording] changes the buffer: ticks of timers still alive,
    replay, animation frames, the pointer and [stopRecording] all leave its
    frames as they are. *)
Theorem buffer_frozen (events : list Event) (st : State) :
  isRecordingRef st = false ->
  forallb (fun e => negb (isStartRecording e)) events = true ->
  recordingDataRef (run rapierStep events st) = recordingDataRef st
  /\ isRecordingRef (run rapierStep events st) = false.
Proof.
  revert st. induction events as [|e events IH]; intros st Hrec Hall; [auto|].
  cbn in Hall. apply andb_prop in Hall as [He Hall]. apply negb_true_iff in He.
  cbn [run fold_left]. 
  assert (Hrec' : isRecordingRef (handleEvent rapierStep st e) = false).
  { rewrite recording_ref_step. destruct e; try exact Hrec; [discriminate | reflexivity]. }
  destruct (IH _ Hrec' Hall) as [Hdata Hflag].
  unfold run in Hdata, Hflag. rewrite Hdata, Hflag. split; [|reflexivity].
  destruct (buffer_step st e) as [H | [[H _] | (h & arm & _ & _ & H & _)]];
    [exact H | congruence | congruence].
Qed.

(** X8. While recording, with the arm present, a run without
    [startRecording] and [stopRecording] makes the buffer longer by exactly
    one frame per tick of a live interval timer: animation frames, the
    pointer and refused replay requests add and remove nothing. *)
Theorem ticks_append_frames (events : list Event) (st : State) :
  isRecordingRef st = true ->
  robotArmRef st <> None ->
  forallb (fun e => negb (isStartRecording e) && negb (isStopRecording e)) events
  = true ->
  exists frames,
    recordingDataRef (run rapierStep events st) = recordingDataRef st ++ frames
    /\ List.length frames = liveTicks (intervals st) events.
Proof.
  revert st. induction events as [|e events IH]; intros st Hrec Harm Hall.
  - exists []. now rewrite app_nil_r.
  - cbn in Hall. apply andb_prop in Hall as [He Hall].
    apply andb_prop in He as [Hstart Hstop].
    apply negb_true_iff in Hstart, Hstop.
    assert (Hrec' : isRecordingRef (handleEvent rapierStep st e) = true).
    { rewrite recording_ref_step. destruct e; try exact Hrec; discriminate. }
    destruct (intervals_step st e Hstart Hstop) as [Hint _].
    destruct (IH _ Hrec' (arm_step st e Harm) Hall) as (frames & Hdata & Hlen).
    cbn [run fold_left]. unfold run in Hdata. rewrite Hdata, Hint in *.
    unfold liveTicks in *. cbn [filter].
    destruct (buffer_step st e) as [H | [[H _] | (h & arm & -> & Hlive & _ & Ha & H)]].
    + exists frames. rewrite H. split; [reflexivity|].
      destruct e; try exact Hlen.
      cbn in H. destruct (existsb (Nat.eqb handle) (intervals st)); [|exact Hlen].
      unfold intervalCallback in H. rewrite Hrec in H.
      destruct (robotArmRef st) as [arm|] eqn:Ha; [|congruence].
      destruct (recordFixedFrame_frame st arm Ha) as (frame & Hf & _).
      rewrite Hf in H. apply (f_equal (@List.length Frame)) in H.
      rewrite length_app in H. cbn in H. lia.
    + congruence.
    + rewrite H. destruct (recordFixedFrame_frame st arm Ha) as (frame & -> & _).
      exists (frame :: frames). rewrite <- app_assoc. split; [reflexivity|].
      rewrite Hlive. cbn. now rewrite Hlen.
Qed.

Lemma isRecording_step (st : State) (e : Event) :
  isStartRecording e = false -> isStopRecording e = false ->
  isRecording (handleEvent rapierStep st e) = isRecording st.
Proof.
  destruct e; cbn; try discriminate; intros _ _; auto.
  - unfold initPhysics. destruct (negb (isMounted st)); [auto|].
    now destruct (placeObjects _ _ _ _).
  - unfold startReplay. now destruct (negb (hasRecording st) || isRecording st).
  - destruct (existsb _ _); [|auto].
    unfold intervalCallback. destruct (isRecordingRef st); [|auto].
    unfold recordFixedFrame. now destruct (robotArmRef st).
  - apply (animate_cells rapierStep currentTime replayNow st).
  - unfold onPointer. now destruct (robotArmRef st).
Qed.

Lemma operated_reachable (st : State) :
  operated rapierStep st -> reachable rapierStep st.
Proof.
  induction 1 as [|st e _ IH _]; [now exists [] | now apply reachable_step].
Qed.

(** X9. When [startRecording] and [stopRecording] are called by their
    buttons only, there is one live interval timer while recording, the one
    [stopRecording] will clear, and none otherwise; so no tick comes when
    recording is off. *)
Theorem operated_single_timer (st : State) :
  operated rapierStep st ->
  (isRecording st = true ->
   exists handle, recordingIntervalRef st = Some handle /\ intervals st = [handle])
  /\ (isRecording st = false ->
      recordingIntervalRef st = None /\ intervals st = []
      /\ forall handle, handleEvent rapierStep st (EvInterval handle) = st).
Proof.
  intros Hop.
  enough (H : (isRecording st = true ->
               exists handle, recordingIntervalRef st = Some handle
                              /\ intervals st = [handle])
              /\ (isRecording st = false ->
                  recordingIntervalRef st = None /\ intervals st = [])).
  { split; [apply H|]. intros Hrec. destruct H as [_ H].
    destruct (H Hrec) as [Href Hint]. split; [exact Href|]. split; [exact Hint|].
    intros handle. cbn. now rewrite Hint. }
  induction Hop as [|st e Hop [IHon IHoff] Hoffered]; [split; [discriminate | auto]|].
  destruct (isStartRecording e || isStopRecording e) eqn:He.
  - destruct e; try discriminate; cbn in Hoffered |- *.
    + apply andb_prop in Hoffered as [Hrec Hrep]. apply negb_true_iff in Hrec, Hrep.
      destruct (IHoff Hrec) as [Href Hint].
      unfold startRecording. rewrite Hrep. cbn. rewrite Hint.
      split; [eauto | discriminate].
    + destruct (IHon Hoffered) as (h & Href & Hint). rewrite Href, Hint.
      split; [discriminate|]. intros _. cbn.
      destruct (Nat.eq_dec h h); [auto | congruence].
  - apply orb_false_elim in He as [Hstart Hstop].
    rewrite (isRecording_step st e Hstart Hstop).
    destruct (intervals_step st e Hstart Hstop) as (-> & -> & _). auto.
Qed.

(** Live handles are below the next handle, and the handle kept for
    [stopRecording] is live. *)
Lemma timers_fresh (st : State) :
  reachable rapierStep st ->
  (forall handle, In handle (intervals st) -> (handle < nextInterval st)%nat)
  /\ (forall handle, recordingIntervalRef st = Some handle -> In handle (intervals st)).
Proof.
  intros Hreach. pattern st. revert st Hreach.
  apply reachable_ind'; [split; [intros h [] | discriminate]|].
  intros st e _ [Hfresh Hkept].
  destruct (isStartRecording e || isStopRecording e) eqn:He.
  - destruct e; try discriminate; cbn.
    + unfold startRecording. destruct (isReplaying st); [auto|]. cbn. split.
      * intros h [<- | Hin]; [lia|]. specialize (Hfresh h Hin). lia.
      * intros h [= <-]. now left.
    + split; [|discriminate].
      intros h Hin. apply Hfresh.
      destruct (recordingIntervalRef st); [|exact Hin].
      now apply in_remove in Hin.
  - apply orb_false_elim in He as [Hstart Hstop].
    destruct (intervals_step st e Hstart Hstop) as (-> & -> & ->). auto.
Qed.

(** X10. [startRecording] does not clear a timer that is alive: after it,
    and after the [stopRecording] that follows, a handle that was alive
    before is alive still, and nothing will clear it. The handlers allow
    this when called while recording; the buttons do not call them so. *)
Theorem restart_keeps_old_timer (st : State) (now : Q) (handle : nat) :
  reachable rapierStep st ->
  isReplaying st = false ->
  In handle (intervals st) ->
  let st' := stopRecording (startRecording now st) in
  In handle (intervals st')
  /\ recordingIntervalRef st' = None
  /\ isRecording st' = false.
Proof.
  intros Hreach Hrep Hin. destruct (timers_fresh st Hreach) as [Hfresh _].
  specialize (Hfresh handle Hin).
  cbn zeta. unfold startRecording. rewrite Hrep. cbn.
  split; [|auto].
  destruct (Nat.eq_dec (nextInterval st) (nextInterval st)); [|congruence].
  apply in_in_remove; [lia | exact Hin].
Qed.

Lemma length_bodies_setBodies (poses : list (Vector3 * Quaternion))
    (objs : list SceneObject) :
  List.length poses = List.length objs ->
  map (fun obj => (body_translation obj, body_rotation obj)) (setBodies poses objs)
  = poses.
Proof.
  revert objs. induction poses as [|[t r] poses IH]; intros [|obj objs] H;
    cbn in *; try reflexivity; try discriminate.
  f_equal. apply IH. lia.
Qed.

(** X11. On an animation frame of the mounted component with a world and no
    replay, when the engine gives a pose for every body, each mesh ends with
    exactly the pose the engine gave its body, in order; the arm is not
    touched and the clock is noted. *)
Theorem live_frame_shows_engine_poses (currentTime replayNow : Q) (st : State) :
  isMounted st = true -> worldRef st = true -> isReplayingRef st = false ->
  let armBody := match robotArmRef st with
                 | Some arm => rigidBody arm
                 | None => None
                 end in
  let bodies := map (fun obj => (body_translation obj, body_rotation obj))
                    (objectsRef st) in
  List.length (rapierStep armBody bodies) = List.length (objectsRef st) ->
  let st' := fst (animate rapierStep currentTime replayNow st) in
  map (fun obj => (mesh_position obj, mesh_quaternion obj)) (objectsRef st')
  = rapierStep armBody bodies
  /\ map (fun obj => (body_translation obj, body_rotation obj)) (objectsRef st')
     = rapierStep armBody bodies
  /\ robotArmRef st' = robotArmRef st
  /\ lastTimeRef st' = currentTime.
Proof.
  intros Hm Hw Hr armBody bodies Hlen. unfold animate. rewrite Hm. cbn.
  rewrite Hw, Hr. cbn. rewrite Hr. cbn. rewrite !map_map. cbn.
  fold armBody. fold bodies.
  split; [now apply length_bodies_setBodies|].
  split; [now apply length_bodies_setBodies | auto].
Qed.

End Scene.

(** ** The further statements on sample runs *)

Lemma recorded_positions_in_rectangle_witness :
  exists frame,
    In frame (recordingDataRef (run restingStep sampleRecording initialState))
    /\ inRectangle (robotArm frame).
Proof.
  set (st := run restingStep sampleRecording initialState).
  destruct (recordingDataRef st) as [|frame rest] eqn:E;
    [vm_compute in E; discriminate|].
  exists frame. split; [now left|].
  apply (recorded_positions_in_rectangle restingStep st frame).
  - exists sampleRecording. reflexivity.
  - rewrite E. now left.
Defined.

Lemma frames_hold_every_object_witness :
  List.length (objectsRef (run restingStep sampleRecording initialState)) = numObjects.
Proof.
  apply (frames_hold_every_object restingStep
           (run restingStep sampleRecording initialState)).
  - exists sampleRecording. reflexivity.
  - vm_compute. discriminate.
Defined.

Lemma never_recording_and_replaying_witness :
  isRecording (run restingStep sampleReplay initialState)
  && isReplaying (run restingStep sampleReplay initialState) = false.
Proof.
  apply (never_recording_and_replaying restingStep
           (run restingStep sampleReplay initialState)).
  exists sampleReplay. reflexivity.
Defined.

Lemma buffer_frozen_witness :
  let st := run restingStep (sampleRecording ++ [EvStopRecording]) initialState in
  recordingDataRef
    (run restingStep [EvInterval 1; EvAnimate 5 6; EvStartReplay 10; EvAnimate 20 21]
         st)
  = recordingDataRef st.
Proof.
  intros st.
  apply (buffer_frozen restingStep
           [EvInterval 1; EvAnimate 5 6; EvStartReplay 10; EvAnimate 20 21] st);
    reflexivity.
Defined.

Lemma ticks_append_frames_witness :
  exists frames,
    recordingDataRef
      (run restingStep [EvInterval 1; EvAnimate 1 1; EvInterval 7; EvInterval 1]
           tiltedState)
    = recordingDataRef tiltedState ++ frames
    /\ List.length frames = 2%nat.
Proof.
  apply (ticks_append_frames restingStep
           [EvInterval 1; EvAnimate 1 1; EvInterval 7; EvInterval 1] tiltedState);
    [reflexivity | discriminate | reflexivity].
Defined.

Lemma operated_single_timer_witness :
  exists handle,
    recordingIntervalRef (handleEvent restingStep initialState (EvStartRecording 0))
    = Some handle
    /\ intervals (handleEvent restingStep initialState (EvStartRecording 0))
       = [handle].
Proof.
  apply (operated_single_timer restingStep
           (handleEvent restingStep initialState (EvStartRecording 0)));
    [|reflexivity].
  apply operated_step; [apply operated_initial | reflexivity].
Defined.

Lemma restart_keeps_old_timer_witness :
  In 1%nat
     (intervals
        (stopRecording
           (startRecording 5 (run restingStep [EvStartRecording 0] initialState)))).
Proof.
  apply (restart_keeps_old_timer restingStep
           (run restingStep [EvStartRecording 0] initialState) 5 1).
  - exists [EvStartRecording 0]. reflexivity.
  - reflexivity.
  - now left.
Defined.

Lemma live_frame_shows_engine_poses_witness :
  map (fun obj => (mesh_position obj, mesh_quaternion obj))
      (objectsRef (fst (animate restingStep 16 16 tiltedState)))
  = [(mkVector3 1 0.375 (-2), mkQuaternion 0.1 0.2 0.3 0.9)].
Proof.
  apply (live_frame_shows_engine_poses restingStep 16 16 tiltedState);
    reflexivity.
Defined.

(** ** The export, from a reachable state *)

Lemma length_rowFields (numberToString : Q -> string) (frame : Frame) :
  List.length (rowFields numberToString frame)
  = (4 + 7 * List.length (objects frame))%nat.
Proof.
  unfold rowFields. rewrite length_app. cbn [List.length]. f_equal.
  induction (objects frame) as [|obj objs IH]; [reflexivity|].
  cbn [flat_map]. rewrite length_app, IH. cbn. lia.
Qed.

(** X12. In a reachable state in which the "Save CSV" button is enabled,
    [saveRecordingAsCSV] does not alert: it gives the header for
    [numObjects] objects and one row per frame, and every row has as many
    fields as the header has columns, 25. *)
Theorem enabled_export_succeeds
    (rapierStep : option Vector3 -> list (Vector3 * Quaternion)
                  -> list (Vector3 * Quaternion))
    (numberToString : Q -> string) (isVerifying : bool) (st : State) :
  reachable rapierStep st ->
  saveCsvDisabled isVerifying st = false ->
  saveRecordingAsCSV numberToString st
  = Some (String.concat newline
            (String.concat "," (headerColumns numObjects)
             :: map (fun frame => String.concat "," (rowFields numberToString frame))
                    (recordingDataRef st)))
  /\ recordingDataRef st <> []
  /\ List.length (headerColumns numObjects) = 25%nat
  /\ forall frame, In frame (recordingDataRef st) ->
                   List.length (rowFields numberToString frame) = 25%nat.
Proof.
  intros Hreach Hbutton. unfold saveCsvDisabled in Hbutton.
  apply orb_false_elim in Hbutton as [Hbutton _].
  apply orb_false_elim in Hbutton as [Hbutton _].
  apply orb_false_elim in Hbutton as [Hhas Hrec]. apply negb_false_iff in Hhas.
  destruct (reachable_invariant rapierStep st Hreach)
    as [Ireplaying Irecording Icount Istamps Ihas Iplaying Iarm Imounted].
  destruct (scene_counts rapierStep st Hreach) as (_ & _ & Hframes).
  rewrite Forall_forall in Hframes.
  pose proof (Ihas Hhas Hrec) as Hdata.
  split; [|split; [exact Hdata | split; [reflexivity|]]].
  - unfold saveRecordingAsCSV. rewrite Hhas.
    destruct (recordingDataRef st) as [|firstFrame others] eqn:E; [congruence|].
    cbn [negb orb List.length Nat.eqb].
    rewrite (Hframes firstFrame (or_introl eq_refl)), csvHeader_columns.
    do 3 f_equal. apply map_ext. intros frame. apply csvRow_fields.
  - intros frame Hin. rewrite length_rowFields, (Hframes frame Hin). reflexivity.
Qed.

Lemma enabled_export_succeeds_witness :
  let st := run restingStep (sampleRecording ++ [EvStopRecording]) initialState in
  saveRecordingAsCSV (fun _ => EmptyString) st
  = Some (String.concat newline
            (String.concat "," (headerColumns numObjects)
             :: map (fun frame =>
                       String.concat "," (rowFields (fun _ => EmptyString) frame))
                    (recordingDataRef st))).
Proof.
  intros st.
  apply (enabled_export_succeeds restingStep (fun _ => EmptyString) false st).
  - exists (sampleRecording ++ [EvStopRecording]). reflexivity.
  - reflexivity.
Defined.

(** ** Replay: the frame by its number, and the positions it restores *)

Lemma stamp_pred (i : nat) :
  (0 < i)%nat -> stamp (i - 1) == inject_Z (Z.of_nat i) * 100 - 100.
Proof.
  intros Hi. rewrite !stamp_value.
  replace (Z.of_nat i) with (Z.of_nat (i - 1) + 1)%Z by lia.
  rewrite inject_Z_plus. setoid_replace (inject_Z 1) with 1 by reflexivity. ring.
Qed.

(** X13. In a reachable state with replay active, at [elapsed] milliseconds
    after the start of the replay, the replay tick imposes frame number [i]
    of the buffer when [100 * i - 100 < elapsed <= 100 * i], that is frame
    number [ceil (elapsed / 100)]; frame 0 also for every [elapsed <= 0]. *)
Theorem replay_frame_index
    (rapierStep : option Vector3 -> list (Vector3 * Quaternion)
                  -> list (Vector3 * Quaternion))
    (st : State) (now : Q) (i : nat) (frame : Frame) :
  reachable rapierStep st ->
  isReplayingRef st = true ->
  nth_error (recordingDataRef st) i = Some frame ->
  let elapsed := now - replayStartTimeRef st in
  (i = 0%nat \/ inject_Z (Z.of_nat i) * 100 - 100 < elapsed) ->
  elapsed <= inject_Z (Z.of_nat i) * 100 ->
  exists arm,
    robotArmRef st = Some arm
    /\ replayFrame now st = (imposeFrame frame arm st, [ImposeFrame frame]).
Proof.
  intros Hreach Hr Hi elapsed Hlow Hhigh.
  destruct (reachable_invariant rapierStep st Hreach)
    as [Ireplaying Irecording Icount Istamps Ihas Iplaying Iarm Imounted].
  destruct (robotArmRef st) as [arm|] eqn:Ha.
  2: { destruct Iarm; [|reflexivity]. intros E. rewrite E in Hi. now destruct i. }
  exists arm. split; [reflexivity|].
  unfold replayFrame. rewrite Hr, Ha. cbn [negb]. fold elapsed.
  destruct (nth_error_split _ _ Hi) as (before & after & Hdata & Hlen).
  assert (Hfind : find (fun f => Qle_bool elapsed (timestamp f)) (recordingDataRef st)
                  = Some frame).
  { apply find_first. exists before, after. split; [exact Hdata|]. split.
    - apply forallb_forall. intros f Hf. apply negb_true_iff, Qle_bool_false.
      apply In_nth_error in Hf as [j Hj].
      assert (Hlt : (j < i)%nat) by (rewrite <- Hlen; apply nth_error_Some; congruence).
      assert (Hj' : nth_error (recordingDataRef st) j = Some f).
      { rewrite Hdata, nth_error_app1 by lia. exact Hj. }
      rewrite (nth_error_stamps _ j f Istamps Hj').
      destruct Hlow as [-> | Hlow]; [lia|].
      eapply Qle_lt_trans; [|exact Hlow].
      rewrite <- stamp_pred by lia. apply stamp_le. lia.
    - apply Qle_bool_iff.
      rewrite (nth_error_stamps _ i frame Istamps Hi), stamp_value. exact Hhigh. }
  now rewrite Hfind.
Qed.

Lemma replay_frame_index_witness :
  exists arm frame,
    nth_error (recordingDataRef (run restingStep sampleReplay initialState)) 2
    = Some frame
    /\ replayFrame 1150 (run restingStep sampleReplay initialState)
       = (imposeFrame frame arm (run restingStep sampleReplay initialState),
          [ImposeFrame frame]).
Proof.
  set (st := run restingStep sampleReplay initialState).
  destruct (nth_error (recordingDataRef st) 2) as [frame|] eqn:Hframe;
    [|vm_compute in Hframe; discriminate].
  destruct (replay_frame_index restingStep st 1150 2 frame) as (arm & _ & H).
  - exists sampleReplay. reflexivity.
  - reflexivity.
  - exact Hframe.
  - right. vm_compute. reflexivity.
  - vm_compute. discriminate.
  - exists arm, frame. split; [reflexivity | exact H].
Defined.

(** X14. [recordFixedFrame] appends a frame. On a replay tick (replay
    active, arm present) for which that frame is the first of the buffer
    whose timestamp is not below the elapsed time, [replayFrame] imposes it:
    the arm's cylinder and the mesh of every object that exists get the
    horizontal position they had at capture, brought to the table
    [-3, 3] x [-3, 3] (a coordinate beyond it comes back as the nearer
    edge), whatever their position was before the tick; heights are not
    recorded: the arm is put at [ROBOT_ARM_Y] and every object at 0.375.
    The normalizer is taken in exact arithmetic. *)
Theorem position_round_trip (st : State) (arm : RobotArm) :
  robotArmRef st = Some arm ->
  exists frame,
    recordingDataRef (recordFixedFrame st) = recordingDataRef st ++ [frame]
    /\ forall now st' arm' before after,
         isReplayingRef st' = true ->
         robotArmRef st' = Some arm' ->
         recordingDataRef st' = before ++ frame :: after ->
         Forall (fun f => timestamp f < now - replayStartTimeRef st') before ->
         now - replayStartTimeRef st' <= timestamp frame ->
         snd (replayFrame now st') = [ImposeFrame frame]
         /\ (exists replayedArm,
               robotArmRef (fst (replayFrame now st')) = Some replayedArm
               /\ v_x (position replayedArm) == clampToTable (v_x (position arm))
               /\ v_y (position replayedArm) = ROBOT_ARM_Y
               /\ v_z (position replayedArm) == clampToTable (v_z (position arm)))
         /\ forall i captured present,
              nth_error (objectsRef st) i = Some captured ->
              nth_error (objectsRef st') i = Some present ->
              exists replayed,
                nth_error (objectsRef (fst (replayFrame now st'))) i = Some replayed
                /\ v_x (mesh_position replayed)
                   == clampToTable (v_x (mesh_position captured))
                /\ v_y (mesh_position replayed) = 0.375
                /\ v_z (mesh_position replayed)
                   == clampToTable (v_z (mesh_position captured)).
Proof.
  intros Harm. unfold recordFixedFrame. rewrite Harm.
  match goal with
  | |- context [map ?f (objectsRef st)] => set (capture := f)
  end.
  cbn zeta. cbn [recordingDataRef].
  eexists. split; [reflexivity|].
  intros now st' arm' before after Hr Ha Hdata Hbefore Hframe.
  rewrite (replayFrame_imposes now st' arm' _ before after Hr Ha Hdata Hbefore Hframe).
  split; [reflexivity|].
  cbn [fst imposeFrame objectsRef robotArmRef objects robotArm v_x v_y].
  split.
  - eexists. split; [reflexivity|]. unfold setPosition. cbn [position v_x v_y v_z].
    destruct (exact_round_trip (v_x (position arm)) (v_y (position arm))
                (v_z (position arm))) as [Hx Hz].
    split; [exact Hx | split; [reflexivity | exact Hz]].
  - intros i captured present Hcap Hpres.
    exists (imposeObject (capture captured) present).
    split; [apply imposeObjects_nth; [now apply map_nth_error | exact Hpres]|].
    unfold imposeObject, capture. cbn [mesh_position os_position v_x v_y v_z].
    destruct (exact_round_trip (v_x (mesh_position captured))
                (v_y (mesh_position captured)) (v_z (mesh_position captured)))
      as [Hx Hz].
    split; [exact Hx | split; [reflexivity | exact Hz]].
Qed.

Lemma position_round_trip_witness :
  exists present replayed,
    nth_error (objectsRef tumbledReplay) 0 = Some present
    /\ mesh_position present = mkVector3 2 0.375 2
    /\ nth_error (objectsRef (fst (replayFrame 1000 tumbledReplay))) 0 = Some replayed
    /\ v_x (mesh_position replayed) == 1
    /\ v_y (mesh_position replayed) = 0.375
    /\ v_z (mesh_position replayed) == -2.
Proof.
  destruct (position_round_trip tiltedState newRobotArm eq_refl)
    as (frame & Hrec & Hreplay).
  vm_compute in Hrec. injection Hrec as <-.
  destruct (Hreplay 1000 tumbledReplay newRobotArm [] []) as (_ & _ & Hobjects).
  - reflexivity.
  - reflexivity.
  - vm_compute. reflexivity.
  - constructor.
  - vm_compute. discriminate.
  - destruct (Hobjects 0%nat
                {| mesh_position := mkVector3 1 0.375 (-2);
                   mesh_quaternion := mkQuaternion 0.1 0.2 0.3 0.9;
                   body_translation := mkVector3 1 0.375 (-2);
                   body_rotation := mkQuaternion 0.1 0.2 0.3 0.9 |}
                {| mesh_position := mkVector3 2 0.375 2;
                   mesh_quaternion := mkQuaternion 0 0 0 1;
                   body_translation := mkVector3 2 0.375 2;
                   body_rotation := mkQuaternion 0 0 0 1 |}
                eq_refl eq_refl)
      as (replayed & Hnth & Hx & Hy & Hz).
    eexists _, replayed. split; [reflexivity|]. split; [reflexivity|].
    split; [exact Hnth|]. cbn [mesh_position v_x v_z] in Hx, Hz.
    split; [rewrite Hx; vm_compute; reflexivity|].
    split; [exact Hy | rewrite Hz; vm_compute; reflexivity].
Defined.

(** X15. While replay is active the pointer still moves the arm, but a
    replay tick that imposes a frame leaves the same state and effects
    whether or not the pointer came before it: the frame's pose replaces
    whatever the pointer did. *)
Theorem replay_overrides_pointer (now ix iz : Q) (st : State) (frame : Frame) :
  In (ImposeFrame frame) (snd (replayFrame now st)) ->
  replayFrame now (onPointer ix iz st) = replayFrame now st
  /\ exists arm,
       robotArmRef (onPointer ix iz st) = Some arm
       /\ position arm = mkVector3 ix ROBOT_ARM_Y iz.
Proof.
  intros Hin.
  destruct (replayFrame_cases now st)
    as [H | [(frame' & arm & Hr & Ha & Hfind & H) | [_ H]]];
    rewrite H in Hin; cbn in Hin;
    try (destruct Hin as [Hin|[]]; discriminate); try contradiction.
  split.
  - rewrite H. unfold replayFrame, onPointer. rewrite Ha. cbn. rewrite Hr, Hfind. cbn.
    unfold imposeFrame. cbn. rewrite Hr. do 3 f_equal.
    unfold setPosition. cbn. now destruct (rigidBody arm).
  - unfold onPointer. rewrite Ha. cbn. eexists. split; reflexivity.
Qed.

Lemma replay_overrides_pointer_witness :
  replayFrame 1150 (onPointer 2 (-1) replayingState)
  = replayFrame 1150 replayingState.
Proof.
  apply (replay_overrides_pointer 1150 2 (-1) replayingState (frameAt 200)).
  vm_compute. left. reflexivity.
Defined.

(** ** The export: what the printed numbers read as *)

Open Scope string_scope.

Lemma readDigits_uint_acc (d : Decimal.uint) (acc : positive) :
  readDigits (Npos acc) (NilEmpty.string_of_uint d) = Npos (Pos.of_uint_acc d acc).
Proof.
  revert acc.
  induction d; intros acc;
    cbn [NilEmpty.string_of_uint readDigits Pos.of_uint_acc];
    try reflexivity;
    match goal with
    | |- readDigits (?a * 10 + digitValue ?c)%N _ = N.pos (Pos.of_uint_acc _ ?b) =>
        let v := eval vm_compute in (digitValue c) in
        change (digitValue c) with v;
        replace (a * 10 + v)%N with (N.pos b) by lia;
        apply IHd
    end.
Qed.

Lemma readDigits_uint (d : Decimal.uint) :
  readDigits 0 (NilEmpty.string_of_uint d) = Pos.of_uint d.
Proof.
  induction d; cbn [NilEmpty.string_of_uint readDigits Pos.of_uint];
    try reflexivity; try exact IHd;
    match goal with
    | |- readDigits (0 * 10 + digitValue ?c)%N _ = _ =>
        let v := eval vm_compute in (0 * 10 + digitValue c)%N in
        change (0 * 10 + digitValue c)%N with v;
        apply readDigits_uint_acc
    end.
Qed.

(** Reading the digits of a number gives the number. *)
Lemma readDigits_digitsOf (n : N) : readDigits 0 (digitsOf n) = n.
Proof.
  unfold digitsOf, NilZero.string_of_uint.
  rewrite <- (DecimalN.Unsigned.of_to n) at 2. unfold N.of_uint.
  destruct (N.to_uint n) eqn:E; try (rewrite <- E at 1; rewrite readDigits_uint; now rewrite E).
  reflexivity.
Qed.

Lemma readDigits_zeros (k : nat) (s : string) :
  readDigits 0 (zeros k ++ s) = readDigits 0 s.
Proof. induction k; [reflexivity | exact IHk]. Qed.

Lemma substring_split (a b : nat) (s : string) :
  (a + b = length s)%nat -> substring 0 a s ++ substring a b s = s.
Proof.
  revert a b. induction s as [|c s IH]; intros [|a] [|b] H; cbn in *;
    try reflexivity; try lia.
  - f_equal. specialize (IH 0%nat b). cbn in IH.
    assert (H0 : substring 0 0 s = "") by (destruct s; reflexivity).
    rewrite H0 in IH. apply IH. lia.
  - f_equal. apply IH. lia.
  - f_equal. apply IH. lia.
Qed.

Lemma Qfloor_half (y : Q) :
  - (1 # 2) < inject_Z (Qfloor (y + (1 # 2))) - y <= 1 # 2.
Proof.
  pose proof (Qfloor_le (y + (1 # 2))) as H1.
  pose proof (Qlt_floor (y + (1 # 2))) as H2.
  rewrite inject_Z_plus in H2.
  setoid_replace (inject_Z 1) with 1 in H2 by reflexivity. lra.
Qed.

Lemma power_of_ten_positive (f : nat) : 0 < inject_Z (10 ^ Z.of_nat f).
Proof.
  change 0 with (inject_Z 0). rewrite <- Zlt_Qlt. apply Z.pow_pos_nonneg; lia.
Qed.

(** X16. Below 10^21, [toFixed] with [f > 0] decimals prints a minus sign
    exactly for a negative number, then digits, a point and [f] digits, and
    the decimal these digits spell is the multiple of [10^-f] nearest to the
    magnitude of the number: they differ by at most half a unit of the last
    place. *)
Theorem toFixed_nearest (numberToString : Q -> string) (f : nat) (x : Q) :
  (0 < f)%nat -> printable x = true ->
  exists sign whole fraction,
    toFixed numberToString f x = sign ++ whole ++ "." ++ fraction
    /\ length fraction = f
    /\ ((x < 0 /\ sign = "-") \/ (0 <= x /\ sign = ""))
    /\ Qabs (decimalValue whole fraction - Qabs x)
       <= (1 # 2) / inject_Z (10 ^ Z.of_nat f).
Proof.
  intros Hf Hx. unfold printable in Hx. apply Qlt_bool_iff in Hx. unfold toFixed.
  set (sign := if Qlt_bool x 0 then "-" else "").
  set (x' := if Qlt_bool x 0 then (- x)%Q else x).
  assert (Hsign : ((x < 0 /\ sign = "-") \/ (0 <= x /\ sign = "")) /\ x' == Qabs x).
  { unfold sign, x'. destruct (Qlt_bool x 0) eqn:E.
    - apply Qlt_bool_iff in E. split; [left; auto|].
      symmetry. apply Qabs_neg. lra.
    - assert (0 <= x).
      { apply Qnot_lt_le. intros H. apply Qlt_bool_iff in H. congruence. }
      split; [right; auto|]. symmetry. now apply Qabs_pos. }
  destruct Hsign as [Hsign Habs].
  assert (Hx' : Qle_bool (inject_Z (10 ^ 21)) x' = false)
    by (apply Qle_bool_false; now rewrite Habs).
  rewrite Hx'.
  destruct (f =? 0)%nat eqn:Ef; [apply Nat.eqb_eq in Ef; lia|].
  set (n := Z.to_N (Qfloor (x' * inject_Z (10 ^ Z.of_nat f) + (1 # 2)))).
  set (m := if (length (digitsOf n) <=? f)%nat
            then zeros (f + 1 - length (digitsOf n)) ++ digitsOf n
            else digitsOf n).
  assert (Hlen : (f < length m)%nat).
  { unfold m. destruct (Nat.leb_spec (length (digitsOf n)) f).
    - rewrite length_append, length_zeros. lia.
    - lia. }
  assert (Hread : readDigits 0 m = n).
  { unfold m. destruct (length (digitsOf n) <=? f)%nat.
    - now rewrite readDigits_zeros, readDigits_digitsOf.
    - apply readDigits_digitsOf. }
  exists sign, (substring 0 (length m - f) m), (substring (length m - f) f m).
  split; [reflexivity|].
  assert (Hfr : length (substring (length m - f) f m) = f)
    by (apply length_substring; lia).
  split; [exact Hfr|]. split; [exact Hsign|].
  unfold decimalValue. rewrite Hfr.
  rewrite substring_split by lia. rewrite Hread.
  pose proof (power_of_ten_positive f) as HP.
  set (P := inject_Z (10 ^ Z.of_nat f)) in *.
  assert (Hx0 : 0 <= x') by (rewrite Habs; apply Qabs_nonneg).
  pose proof (Qfloor_half (x' * P)) as Hhalf.
  assert (Hn : inject_Z (Z.of_N n) == inject_Z (Qfloor (x' * P + (1 # 2)))).
  { unfold n. rewrite Z2N.id; [reflexivity|].
    assert (H : - (1 # 2) < inject_Z (Qfloor (x' * P + (1 # 2)))) by nra.
    destruct (Z.le_gt_cases 0 (Qfloor (x' * P + (1 # 2)))) as [Hge|Hneg]; [exact Hge|].
    assert (Hle : inject_Z (Qfloor (x' * P + (1 # 2))) <= inject_Z (-1))
      by (rewrite <- Zle_Qle; lia).
    setoid_replace (inject_Z (-1)) with (-(1)) in Hle by reflexivity. lra. }
  rewrite Hn, <- Habs.
  set (v := inject_Z (Qfloor (x' * P + (1 # 2)))) in *.
  assert (Hdiff : v / P - x' == (v - x' * P) / P) by (field; lra).
  rewrite Hdiff. apply Qabs_Qle_condition. split.
  - setoid_replace (- ((1 # 2) / P)) with ((- (1 # 2)) / P) by (field; lra).
    apply Qmult_le_compat_r; [lra|]. apply Qlt_le_weak, Qinv_lt_0_compat, HP.
  - apply Qmult_le_compat_r; [lra|]. apply Qlt_le_weak, Qinv_lt_0_compat, HP.
Qed.

Lemma toFixed_nearest_witness :
  exists sign whole fraction,
    toFixed (fun _ => "") 6 (-(2 # 3)) = sign ++ whole ++ "." ++ fraction
    /\ length fraction = 6%nat
    /\ Qabs (decimalValue whole fraction - Qabs (-(2 # 3)))
       <= (1 # 2) / inject_Z (10 ^ Z.of_nat 6).
Proof.
  destruct (toFixed_nearest (fun _ => "") 6 (-(2 # 3)))
    as (sign & whole & fraction & H1 & H2 & _ & H3);
    [lia | vm_compute; reflexivity |].
  exists sign, whole, fraction. auto.
Defined.

(** ** The export: fields between commas *)

Lemma fieldsOf_cons (c : ascii) (s : string) :
  fieldsOf (String c s)
  = if Ascii.eqb c (ascii_of_nat 44) then "" :: fieldsOf s
    else match fieldsOf s with
         | [] => [String c ""]
         | field :: rest => String c field :: rest
         end.
Proof. reflexivity. Qed.

Lemma fieldsOf_single (s : string) :
  allChars notComma s = true -> fieldsOf s = [s].
Proof.
  induction s as [|c s IH]; [reflexivity|].
  cbn [allChars]. rewrite andb_true_iff. unfold notComma at 1. intros [Hc Hs].
  apply negb_true_iff in Hc. rewrite fieldsOf_cons, Hc, (IH Hs). reflexivity.
Qed.

Lemma fieldsOf_append (s rest : string) :
  allChars notComma s = true ->
  fieldsOf (s ++ "," ++ rest) = s :: fieldsOf rest.
Proof.
  induction s as [|c s IH]; [reflexivity|].
  cbn [allChars]. rewrite andb_true_iff. unfold notComma at 1. intros [Hc Hs].
  apply negb_true_iff in Hc.
  change (String c s ++ "," ++ rest) with (String c (s ++ "," ++ rest)).
  rewrite fieldsOf_cons, Hc, (IH Hs). reflexivity.
Qed.

(** Texts without comma, joined by commas, are the fields of what they make. *)
Lemma fieldsOf_concat (l : list string) :
  l <> [] -> Forall (fun s => allChars notComma s = true) l ->
  fieldsOf (concat "," l) = l.
Proof.
  induction l as [|s l IH]; [congruence|]. intros _ Hall.
  inversion Hall as [|? ? Hs Hl]; subst.
  destruct l as [|t l].
  - cbn. now apply fieldsOf_single.
  - rewrite concat_cons by discriminate.
    rewrite fieldsOf_append by exact Hs. f_equal. apply IH; [discriminate | exact Hl].
Qed.

Lemma digit_notComma (c : ascii) : isDigit c = true -> notComma c = true.
Proof.
  unfold isDigit, notComma. intros H. apply andb_prop in H as [H _].
  apply Nat.leb_le in H. apply negb_true_iff, Ascii.eqb_neq. intros ->.
  cbn in H. lia.
Qed.

Lemma fixedDecimal_notComma (f : nat) (s : string) :
  fixedDecimal f s -> allChars notComma s = true.
Proof.
  intros (sign & whole & fraction & -> & Hsign & _ & Hw & Hfr & _).
  rewrite !allChars_append.
  rewrite (allChars_impl _ _ _ digit_notComma Hw).
  rewrite (allChars_impl _ _ _ digit_notComma Hfr).
  destruct Hsign as [-> | ->]; reflexivity.
Qed.

Lemma headerColumns_notComma (objectCount : nat) :
  Forall (fun s => allChars notComma s = true) (headerColumns objectCount).
Proof.
  unfold headerColumns. apply Forall_app. split.
  - repeat constructor.
  - apply Forall_flat_map, Forall_forall. intros i _. unfold objectColumns.
    assert (Hd : allChars notComma (digitsOf (N.of_nat i)) = true)
      by (apply (allChars_impl _ _ _ digit_notComma), digitsOf_digits).
    repeat constructor; rewrite !allChars_append, Hd; reflexivity.
Qed.

(** X17. A reader that splits the header at its commas gets the column
    names, [4 + 7 * objectCount] of them; one that splits the row of a frame
    whose numbers are below 10^21 gets the frame's printed values in column
    order, [4 + 7 * k] for a frame of [k] objects: no name and no printed
    number holds a comma. *)
Theorem export_splits_at_commas (numberToString : Q -> string) (objectCount : nat) :
  fieldsOf (csvHeader objectCount) = headerColumns objectCount
  /\ List.length (fieldsOf (csvHeader objectCount)) = (4 + 7 * objectCount)%nat
  /\ forall frame,
       printableFrame frame = true ->
       fieldsOf (csvRow numberToString frame) = rowFields numberToString frame
       /\ List.length (fieldsOf (csvRow numberToString frame))
          = (4 + 7 * List.length (objects frame))%nat.
Proof.
  assert (Hheader : fieldsOf (csvHeader objectCount) = headerColumns objectCount).
  { rewrite csvHeader_columns. apply fieldsOf_concat; [discriminate|].
    apply headerColumns_notComma. }
  split; [exact Hheader|]. split; [rewrite Hheader; apply length_headerColumns|].
  intros frame Hprint.
  destruct (rowFields_shape numberToString frame Hprint)
    as (stampField & fields & Hrow & H3 & H6 & Hlen).
  assert (Hfields : fieldsOf (csvRow numberToString frame)
                    = rowFields numberToString frame).
  { rewrite csvRow_fields, Hrow. apply fieldsOf_concat; [discriminate|].
    constructor; [eapply fixedDecimal_notComma, H3|].
    eapply Forall_impl; [|exact H6]. apply fixedDecimal_notComma. }
  split; [exact Hfields|]. rewrite Hfields, Hrow. cbn [List.length]. lia.
Qed.

Close Scope string_scope.

(** ** Pointer *)

(** X18. For a canvas of positive width and height, [getPointerPosition]
    gives a pair within [-1, 1] x [-1, 1] exactly for a pointer over the
    canvas; the left edge is -1 and the top edge is +1, the vertical axis
    being turned over. *)
Theorem pointer_position_range (clientX clientY left top width height : Q) :
  0 < width -> 0 < height ->
  let pointer := getPointerPosition clientX clientY left top width height in
  (left <= clientX <= left + width <-> -1 <= fst pointer <= 1)
  /\ (top <= clientY <= top + height <-> -1 <= snd pointer <= 1)
  /\ (clientX == left -> fst pointer == -1)
  /\ (clientY == top -> snd pointer == 1).
Proof.
  intros Hw Hh. cbn zeta. unfold getPointerPosition. cbn [fst snd].
  assert (Hx : (clientX - left) / width * width == clientX - left)
    by (field; lra).
  assert (Hy : (clientY - top) / height * height == clientY - top)
    by (field; lra).
  set (tx := (clientX - left) / width) in *.
  set (ty := (clientY - top) / height) in *.
  split; [|split; [|split]].
  - split; intros [H1 H2]; split; nra.
  - split; intros [H1 H2]; split; nra.
  - intros H. assert (tx == 0) by nra. lra.
  - intros H. assert (ty == 0) by nra. lra.
Qed.

Lemma pointer_position_range_witness :
  let pointer := getPointerPosition 300 150 100 50 400 400 in
  -1 <= fst pointer <= 1 /\ -1 <= snd pointer <= 1.
Proof.
  destruct (pointer_position_range 300 150 100 50 400 400) as (H1 & H2 & _);
    [lra | lra |].
  split; [apply H1 | apply H2]; lra.
Defined.

(** X19. The arm follows the pointer only between a press that meets the
    ground and the next release: moves that come first, or after a release,
    change nothing, whatever they point at. *)
Theorem moves_need_a_press (events moves : list PointerEvent)
    (isDragging : bool) (st : State) :
  forallb isPointerMove moves = true ->
  fold_left handlePointer moves (false, st) = (false, st)
  /\ fold_left handlePointer (events ++ PointerUp :: moves) (isDragging, st)
     = (false, snd (fold_left handlePointer events (isDragging, st))).
Proof.
  intros Hmoves.
  assert (H : forall st0, fold_left handlePointer moves (false, st0) = (false, st0)).
  { induction moves as [|e moves IH]; intros st0; [reflexivity|].
    cbn in Hmoves. apply andb_prop in Hmoves as [He Hmoves].
    destruct e; try discriminate. cbn. now apply IH. }
  split; [apply H|].
  rewrite fold_left_app. cbn [fold_left handlePointer onPointerUp]. apply H.
Qed.

Lemma moves_need_a_press_witness :
  fold_left handlePointer [PointerMove (Some (1, 2)); PointerMove None]
            (false, initialState)
  = (false, initialState).
Proof.
  apply (moves_need_a_press [] [PointerMove (Some (1, 2)); PointerMove None]
           false initialState eq_refl).
Defined.

(** ** Verification adapter: the edges *)

Open Scope string_scope.

(** X20. Without an API key the adapter only alerts and [onVerify] is not
    called; with a key but no renderer it only calls [onVerify(false)];
    otherwise it sets "verifying", ends by clearing it, and calls [onVerify]
    once. In no case is [onVerify] called twice, and [onVerify(true)] comes
    only with the result 'success' and no alert. Behind the enabled "Verify"
    button the key is never blank. *)
Theorem verification_edges (apiKey : string) (rendererReady : bool)
    (response : Fetched) :
  let effects := verifyWithGemini apiKey rendererReady response in
  (trimIsEmpty apiKey = true -> effects = [Alert])
  /\ (trimIsEmpty apiKey = false -> rendererReady = false ->
      effects = [OnVerify false])
  /\ (trimIsEmpty apiKey = false -> rendererReady = true ->
      hd Alert effects = SetIsVerifying true
      /\ last effects Alert = SetIsVerifying false
      /\ List.length (filter isOnVerify effects) = 1%nat)
  /\ (List.length (filter isOnVerify effects) <= 1)%nat
  /\ (In (OnVerify true) effects ->
      In (SetVerificationResult (Some true)) effects /\ ~ In Alert effects)
  /\ (forall isVerifying task st,
        verifyDisabled isVerifying apiKey task st = false ->
        trimIsEmpty apiKey = false /\ effects <> [Alert]).
Proof.
  cbn zeta. unfold verifyWithGemini.
  destruct (trimIsEmpty apiKey) eqn:Hkey.
  - split; [reflexivity|]. split; [discriminate|]. split; [discriminate|].
    split; [cbn; lia|]. split; [cbn; intuition discriminate|].
    intros isVerifying task st H. unfold verifyDisabled in H.
    rewrite Hkey, !orb_true_r in H. discriminate.
  - split; [discriminate|].
    assert (Hbutton : forall (effects : list VerifyEffect)
                        (isVerifying : bool) (task : string) (st : State),
               effects <> [Alert] ->
               verifyDisabled isVerifying apiKey task st = false ->
               false = false /\ effects <> [Alert]) by auto.
    destruct rendererReady; cbn [negb].
    + split; [discriminate|].
      destruct (interpretResponse response) as [[|]|]; cbn.
      * split; [auto|]. split; [lia|]. split; [intuition discriminate|].
        intros isVerifying task st. apply Hbutton. discriminate.
      * split; [auto|]. split; [lia|]. split; [intuition discriminate|].
        intros isVerifying task st. apply Hbutton. discriminate.
      * split; [auto|]. split; [lia|]. split; [intuition discriminate|].
        intros isVerifying task st. apply Hbutton. discriminate.
    + split; [reflexivity|]. split; [discriminate|]. cbn.
      split; [lia|]. split; [intuition discriminate|].
      intros isVerifying task st. apply Hbutton. discriminate.
Qed.

Close Scope string_scope.

(** ** Placement: what one object gets *)

(** The sampling loop, whatever [Math.random()] gives: it ends within
    [maxAttempts] turns, two calls each; ended before [maxAttempts], its
    candidate is valid. *)
Lemma sampleLoop_bounded (random : nat -> Q) (occupiedPositions : list Occupied)
    (fuel calls attempts : nat) :
  (attempts + fuel = maxAttempts)%nat -> (0 < fuel)%nat ->
  exists x z attempts' calls',
    sampleLoop fuel random occupiedPositions calls attempts
    = Some (x, z, attempts', calls')
    /\ (attempts < attempts' <= maxAttempts)%nat
    /\ (calls' = calls + 2 * (attempts' - attempts))%nat
    /\ ((attempts' < maxAttempts)%nat ->
        isPositionValid occupiedPositions x z objectRadius = true).
Proof.
  revert calls attempts. induction fuel as [|fuel IH]; intros calls attempts Hsum Hpos;
    [lia|].
  cbn [sampleLoop].
  destruct (isPositionValid occupiedPositions _ _ objectRadius) eqn:Hvalid;
    cbn [negb andb].
  - eexists _, _, _, _. split; [reflexivity|].
    split; [lia|]. split; [lia | intros _; exact Hvalid].
  - destruct (Nat.ltb_spec (S attempts) maxAttempts) as [Hlt|Hge].
    + destruct (IH (S (S calls)) (S attempts)) as (x & z & a & c & -> & Ha & Hc & Hv);
        [lia | lia |].
      eexists _, _, _, _. split; [reflexivity|].
      split; [lia|]. split; [lia | exact Hv].
    + eexists _, _, _, _. split; [reflexivity|].
      split; [lia|]. split; [lia | lia].
Qed.

(** X21. Whatever [Math.random()] gives, the placement of an object ends:
    after at least 2 and at most 200 calls of [Math.random()] the object is
    put either at a sampled position that [isPositionValid] accepts, or at
    the grid position of its index. *)
Theorem placeOne_outcome (random : nat -> Q) (occupiedPositions : list Occupied)
    (calls : nat) :
  exists x z calls',
    placeOne random occupiedPositions calls = Some (x, z, calls')
    /\ (calls + 2 <= calls' <= calls + 200)%nat
    /\ (isPositionValid occupiedPositions x z objectRadius = true
        \/ (x, z) = gridFallback occupiedPositions).
Proof.
  unfold placeOne.
  destruct (sampleLoop_bounded random occupiedPositions maxAttempts calls 0 eq_refl)
    as (x & z & attempts & calls' & -> & Ha & Hc & Hv); [unfold maxAttempts; lia|].
  unfold maxAttempts in Ha, Hc.
  destruct (Nat.leb_spec maxAttempts attempts) as [Hge|Hlt].
  - eexists _, _, _. split; [reflexivity|]. split; [lia|].
    right. now destruct (gridFallback occupiedPositions).
  - eexists _, _, _. split; [reflexivity|]. split; [lia|]. left. now apply Hv.
Qed.

Lemma isPositionValid_clear_witness :
  clearanceKept 3 3 0 0 0.9 0.45 = true
  /\ clearanceKept 3 3 (-3) (-3) 0.9 0.9 = true.
Proof.
  destruct (isPositionValid_clear [mkOccupied (-3) (-3) 0.9] 3 3 0.9) as [H1 H2];
    [lra | reflexivity |].
  split; [exact H1|].
  apply (H2 (mkOccupied (-3) (-3) 0.9) (or_introl eq_refl)). cbn. lra.
Defined.
